(** * Hypercave: cache stores and transaction-manifest builders

    A shallow embedding of [src/cache.js], of the manifest builders
    ([buildInCaveManifest], [buildOutCaveManifest], [buildLookCaveManifest])
    and of the guards of the controller ([handleTransaction],
    [handleLookup] in [src/main.js]), with the properties the specification
    states about them.

    Conventions of the embedding.
    - JavaScript numbers are integers ([Z], exact arithmetic) or one of
      [Infinity], [-Infinity], [NaN]: time stamps and TTLs are counts of
      milliseconds, far below 2^53, where double arithmetic is exact.
    - [Date.now()] is an explicit argument [now] of the operations that read
      the clock.
    - A string held by [localStorage] is represented by what [JSON.parse]
      makes of it (see [text]); [localStorage] has no quota.
    - Objects are association lists of own properties, in the order
      JavaScript enumerates them and read with the first match; they
      inherit from [Object.prototype], whose members a read can reach (see
      [Get]) and whose [__proto__] setter a write can reach (see [Put]).
    - Strings are sequences of 8-bit code units. *)

From Stdlib Require Import ZArith Ascii Bool Lia.
From Stdlib Require String.
From stdpp Require Import base option list strings pretty gmap fin_maps.

Local Open Scope Z_scope.

(** ** JavaScript values *)

Inductive number : Type :=
  | Fin (z : Z)
  | PInf
  | NInf
  | NaN.

#[warnings="-register-all"] Inductive jsval : Type :=
  | VUndefined
  | VNull
  | VBool (b : bool)
  | VNum (n : number)
  | VStr (s : string)
  | VArr (elems : list jsval)
  | VObj (props : list (string * jsval)).

#[global] Instance number_eq_dec : EqDecision number.
Proof. solve_decision. Defined.

(** [a + b] on numbers. *)
Definition num_add (a b : number) : number :=
  match a, b with
  | NaN, _ | _, NaN => NaN
  | PInf, NInf | NInf, PInf => NaN
  | PInf, _ | _, PInf => PInf
  | NInf, _ | _, NInf => NInf
  | Fin x, Fin y => Fin (x + y)
  end.

(** [a > b] on numbers: false as soon as one side is [NaN]. *)
Definition num_gt (a b : number) : bool :=
  match a, b with
  | NaN, _ | _, NaN => false
  | Fin x, Fin y => bool_decide (y < x)
  | PInf, PInf => false
  | PInf, _ => true
  | _, PInf => false
  | NInf, _ => false
  | _, NInf => true
  end.

(** A TTL that is a positive number: a positive count of milliseconds or
    [Infinity]. *)
Definition positive_ttl (ttlMs : number) : Prop :=
  match ttlMs with
  | Fin z => 0 < z
  | PInf => True
  | NInf | NaN => False
  end.

(** ToBoolean. *)
Definition truthy (v : jsval) : bool :=
  match v with
  | VUndefined | VNull => false
  | VBool b => b
  | VNum (Fin z) => negb (z =? 0)
  | VNum NaN => false
  | VNum _ => true
  | VStr s => negb (String.eqb s "")
  | VArr _ | VObj _ => true
  end.

(** [a || b]. *)
Definition js_or (a b : jsval) : jsval := if truthy a then a else b.

(** [a !== Infinity]: strict inequality with the number [Infinity] holds for
    every value but that number itself. *)
Definition strict_neq_Infinity (v : jsval) : bool :=
  match v with
  | VNum PInf => false
  | _ => true
  end.

(** Own properties of an object, in an association list. *)
Fixpoint obj_get (k : string) (props : list (string * jsval)) : jsval :=
  match props with
  | [] => VUndefined
  | (k', v) :: rest => if String.eqb k k' then v else obj_get k rest
  end.

(** Whether [k] is an own property. *)
Fixpoint obj_has (k : string) (props : list (string * jsval)) : bool :=
  match props with
  | [] => false
  | (k', _) :: rest => String.eqb k k' || obj_has k rest
  end.

(** Array indices: the canonical decimal numerals of the integers from 0 to
    2^32 - 2.  Own properties under such names are enumerated first, in
    ascending order; the others follow in the order of their creation
    (ECMA-262, 10.1.11). *)
Definition digit_value (c : ascii) : option N :=
  let n := N_of_ascii c in
  if ((48 <=? n) && (n <=? 57))%N then Some (n - 48)%N else None.

Fixpoint decimal_value (s : string) (acc : N) : option N :=
  match s with
  | EmptyString => Some acc
  | String c s' =>
      match digit_value c with
      | Some d => decimal_value s' (10 * acc + d)%N
      | None => None
      end
  end.

Definition array_index (k : string) : option N :=
  match k with
  | EmptyString => None
  | String c rest =>
      if Ascii.eqb c "0"
      then (if String.eqb rest "" then Some 0%N else None)
      else match decimal_value k 0 with
           | Some n => if (n <? 4294967295)%N then Some n else None
           | None => None
           end
  end.

(** Whether a new property [k] is enumerated before the property [k']. *)
Definition goes_before (k k' : string) : bool :=
  match array_index k, array_index k' with
  | Some n, Some n' => (n <? n')%N
  | Some _, None => true
  | None, _ => false
  end.

Fixpoint obj_replace (k : string) (v : jsval) (props : list (string * jsval))
  : list (string * jsval) :=
  match props with
  | [] => []
  | (k', v') :: rest =>
      if String.eqb k k' then (k, v) :: rest
      else (k', v') :: obj_replace k v rest
  end.

Fixpoint obj_insert (k : string) (v : jsval) (props : list (string * jsval))
  : list (string * jsval) :=
  match props with
  | [] => [(k, v)]
  | (k', v') :: rest =>
      if goes_before k k' then (k, v) :: props
      else (k', v') :: obj_insert k v rest
  end.

(** The own data property [k] is given the value [v]: an existing property
    keeps its place; a new one takes its place in the enumeration, after the
    others unless it is an array index. *)
Definition obj_set (k : string) (v : jsval) (props : list (string * jsval))
  : list (string * jsval) :=
  if obj_has k props then obj_replace k v props else obj_insert k v props.

(** ** Inherited members

    An object made by [JSON.parse] or by an object literal inherits from
    [Object.prototype] (ECMA-262, 20.1.3 and B.2.2).  A read under one of
    its names, on an object that has no property of its own under it, gives
    the built-in found there: a function, or, under [__proto__],
    [Object.prototype] itself.  Built-ins are no data: they are met as the
    result of a read, and nowhere inside the values the stores hold. *)
Definition Object_prototype_names : list string :=
  ["constructor"; "hasOwnProperty"; "isPrototypeOf"; "propertyIsEnumerable";
   "toLocaleString"; "toString"; "valueOf"; "__proto__";
   "__defineGetter__"; "__defineSetter__"; "__lookupGetter__";
   "__lookupSetter__"].

Inductive member : Type :=
  | Value (v : jsval)
  | Builtin (name : string).

(** What a read under [k] finds on [Object.prototype]. *)
Definition inherited (k : string) : member :=
  if bool_decide (k ∈ Object_prototype_names) then Builtin k
  else Value VUndefined.

(** [m || d]: a built-in is truthy. *)
Definition member_or (m : member) (d : jsval) : member :=
  match m with
  | Value v => Value (js_or v d)
  | Builtin name => Builtin name
  end.

(** ** JSON

    [JSON_roundtrip v] is [JSON.parse(JSON.stringify(v))]: what is read back
    from a text written for [v].  [None] stands for the one value that has
    no text, [undefined]: as a property it is left out, as an array element
    it is written [null].  Numbers that are not finite are written [null]. *)

Fixpoint JSON_roundtrip (v : jsval) : option jsval :=
  match v with
  | VUndefined => None
  | VNull => Some VNull
  | VBool b => Some (VBool b)
  | VNum (Fin z) => Some (VNum (Fin z))
  | VNum _ => Some VNull
  | VStr s => Some (VStr s)
  | VArr elems =>
      Some (VArr (List.map (fun e => default VNull (JSON_roundtrip e)) elems))
  | VObj props =>
      Some (VObj ((fix go (ps : list (string * jsval)) :=
                     match ps with
                     | [] => []
                     | (k, x) :: rest =>
                         match JSON_roundtrip x with
                         | Some x' => (k, x') :: go rest
                         | None => go rest
                         end
                     end) props))
  end.

(** The properties read back from the text of an object. *)
Definition roundtrip_props (props : list (string * jsval))
  : list (string * jsval) :=
  match JSON_roundtrip (VObj props) with
  | Some (VObj props') => props'
  | _ => []
  end.

(** The values [JSON.stringify] writes and [JSON.parse] gives back as they
    are: no [undefined], no number that is not finite, at any depth. *)
Fixpoint serializable (v : jsval) : bool :=
  match v with
  | VUndefined => false
  | VNull | VBool _ | VStr _ => true
  | VNum (Fin _) => true
  | VNum _ => false
  | VArr elems => forallb serializable elems
  | VObj props => forallb (fun p => serializable (snd p)) props
  end.

(** Induction on values that reaches the elements of arrays and the values
    of properties. *)
Section jsval_induction.
Variable P : jsval -> Prop.
Hypothesis HUndefined : P VUndefined.
Hypothesis HNull : P VNull.
Hypothesis HBool : forall b, P (VBool b).
Hypothesis HNum : forall n, P (VNum n).
Hypothesis HStr : forall s, P (VStr s).
Hypothesis HArr : forall elems, Forall P elems -> P (VArr elems).
Hypothesis HObj :
  forall props, Forall (fun p => P (snd p)) props -> P (VObj props).

Fixpoint jsval_deep_ind (v : jsval) : P v :=
  match v with
  | VUndefined => HUndefined
  | VNull => HNull
  | VBool b => HBool b
  | VNum n => HNum n
  | VStr s => HStr s
  | VArr elems =>
      HArr elems
        ((fix all (l : list jsval) : Forall P l :=
            match l with
            | [] => Forall_nil_2 P
            | e :: l' => Forall_cons_2 P e l' (jsval_deep_ind e) (all l')
            end) elems)
  | VObj props =>
      HObj props
        ((fix all (l : list (string * jsval))
            : Forall (fun p => P (snd p)) l :=
            match l with
            | [] => Forall_nil_2 _
            | p :: l' =>
                Forall_cons_2 (fun p => P (snd p)) p l'
                  (jsval_deep_ind (snd p)) (all l')
            end) props)
  end.
End jsval_induction.

(** ** Exceptions and state

    A computation runs on a state and either returns or throws; the state
    reached before a [throw] is kept, as [try]/[catch] finds it. *)

Inductive error : Type :=
  | TypeError
  | SyntaxError.

Inductive outcome (A : Type) : Type :=
  | Ret (a : A)
  | Throw (e : error).
Arguments Ret {A} a.
Arguments Throw {A} e.

Definition JS (St A : Type) : Type := St -> outcome A * St.

#[global] Instance JS_ret {St} : MRet (JS St) := fun A a s => (Ret a, s).

#[global] Instance JS_bind {St} : MBind (JS St) := fun A B f m s =>
  match m s with
  | (Ret a, s') => f a s'
  | (Throw e, s') => (Throw e, s')
  end.

(** A pure step that may throw. *)
Definition lift {St A} (o : outcome A) : JS St A := fun s => (o, s).

(** [try { body } catch { handler }]. *)
Definition try_catch {St A} (body : JS St A) (handler : error -> JS St A)
  : JS St A := fun s =>
  match body s with
  | (Ret a, s') => (Ret a, s')
  | (Throw e, s') => handler e s'
  end.

#[global] Instance outcome_ret : MRet outcome := fun A a => Ret a.

#[global] Instance outcome_bind : MBind outcome := fun A B f m =>
  match m with
  | Ret a => f a
  | Throw e => Throw e
  end.

(** [l.forEach(f)]. *)
Fixpoint forEach {St A} (f : A -> JS St unit) (l : list A) : JS St unit :=
  match l with
  | [] => mret tt
  | x :: l' => f x;; forEach f l'
  end.

(** [for (let i = from; i < from + n; i++) acc = body(i, acc)]. *)
Fixpoint for_range {St A} (from n : nat) (body : nat -> A -> JS St A)
  (acc : A) : JS St A :=
  match n with
  | O => mret acc
  | S n' => acc' ← body from acc; for_range (S from) n' body acc'
  end.

(** [for (const x of l) acc = body(acc, x)], for a body without effect on
    the stores. *)
Fixpoint for_of {A B} (body : A -> B -> outcome A) (acc : A) (l : list B)
  : outcome A :=
  match l with
  | [] => Ret acc
  | x :: l' => acc' ← body acc x; for_of body acc' l'
  end.

(** [console.warn]: no effect on the stores. *)
Definition console_warn {St} : JS St unit := mret tt.

(** ** localStorage

    A stored string is seen through the two things the code does with it:
    test it for emptiness and hand it to [JSON.parse].  [Json doc] is a string
    [JSON.parse] accepts, giving [doc] (a [serializable] value, when the
    string is one a browser holds); [Raw s] is the string [s], one that
    [JSON.parse] rejects (the empty string is one).  [getItem] gives [None]
    for [null]. *)

Inductive text : Type :=
  | Json (doc : jsval)
  | Raw (s : string).

Abbreviation Storage := (gmap string text).

Definition getItem (k : string) : JS Storage (option text) :=
  fun ls => (Ret (ls !! k), ls).

Definition setItem (k : string) (t : text) : JS Storage unit :=
  fun ls => (Ret tt, <[k := t]> ls).

Definition removeItem (k : string) : JS Storage unit :=
  fun ls => (Ret tt, delete k ls).

(** [localStorage.length] and [localStorage.key(i)]: the keys come in an
    order of the browser's choosing, here the one of [map_to_list]. *)
Definition localStorage_length : JS Storage nat :=
  fun ls => (Ret (size ls), ls).

Definition localStorage_key (i : nat) : JS Storage (option string) :=
  fun ls => (Ret ((map_to_list ls).*1 !! i), ls).

(** [!item] for what [getItem] gave: [null] and the empty string. *)
Definition item_falsy (item : option text) : bool :=
  match item with
  | None => true
  | Some (Raw s) => String.eqb s ""
  | Some (Json _) => false
  end.

(** [JSON.parse(item)]; [null] is read as the text [null]. *)
Definition JSON_parse (item : option text) : outcome jsval :=
  match item with
  | None => Ret VNull
  | Some (Json doc) => Ret doc
  | Some (Raw _) => Throw SyntaxError
  end.

(** [JSON.stringify(v)] as [setItem] stores it: [undefined] has no text and
    is stored as the string [undefined], which is not JSON. *)
Definition JSON_stringify (v : jsval) : text :=
  match JSON_roundtrip v with
  | Some doc => Json doc
  | None => Raw "undefined"
  end.

(** [o[k]]: the own property, or else what the prototype chain holds under
    that name.  Reading a property of [null] or [undefined] throws.
    Numbers, booleans, strings and arrays inherit from [Object.prototype]
    too, through a prototype of their own; what that prototype adds or
    replaces, and the indices and [length] of strings and arrays, are left
    out: the registry is studied where it is an object. *)
Definition obj_read (k : string) (props : list (string * jsval)) : member :=
  if obj_has k props then Value (obj_get k props) else inherited k.

Definition Get (o : jsval) (k : string) : outcome member :=
  match o with
  | VUndefined | VNull => Throw TypeError
  | VObj props => Ret (obj_read k props)
  | _ => Ret (inherited k)
  end.

(** [const {k} = o] for a name [k] that no prototype holds ([value] and
    [expiry] are such names): the read gives data, [undefined] where the
    object has no such property. *)
Definition GetValue (o : jsval) (k : string) : outcome jsval :=
  match Get o k with
  | Ret (Value v) => Ret v
  | Ret (Builtin _) => Ret VUndefined
  | Throw e => Throw e
  end.

(** The own properties after [o[k] = v] for an object [v].  Under the name
    [__proto__], on an object without an own property of that name, the
    assignment reaches the setter of [Object.prototype]: it changes the
    prototype of [o] and creates no property.  ([JSON.parse] does create
    own properties named [__proto__]; such a one is assigned like any
    other.) *)
Definition own_put (k : string) (v : jsval) (props : list (string * jsval))
  : list (string * jsval) :=
  if String.eqb k "__proto__" && negb (obj_has k props) then props
  else obj_set k v props.

(** [o[k] = v] in strict mode (module code) for an object [v], giving the
    updated object.  The prototype a [__proto__] assignment installs is not
    kept: [v] has the data properties [address] and [iconUrl] only, so later
    assignments still create own properties, and [JSON.stringify] writes own
    properties only.  The assignment throws on [null], [undefined] and
    primitives; on an array the new property is not an element and
    [JSON.stringify] leaves it out (a ticker that is an index or [length]
    is left out of the model). *)
Definition Put (o : jsval) (k : string) (v : jsval) : outcome jsval :=
  match o with
  | VObj props => Ret (VObj (own_put k v props))
  | VArr elems => Ret (VArr elems)
  | _ => Throw TypeError
  end.

Definition CACHE_PREFIX : string := "hypercave_".
Definition RESOURCE_CACHE_KEY : string := "resource_cache".

(** ** The persistent store: [cache] *)

Module cache.
Section ops.
(** ToNumber on strings, arrays and objects (ECMA-262, 7.1.4) is taken as
    given; it throws when ToPrimitive does. *)
Variable ToNumber_ext : jsval -> outcome number.

Definition ToNumber (v : jsval) : outcome number :=
  match v with
  | VUndefined => Ret NaN
  | VNull => Ret (Fin 0)
  | VBool b => Ret (Fin (if b then 1 else 0))
  | VNum n => Ret n
  | VStr _ | VArr _ | VObj _ => ToNumber_ext v
  end.

(** [a > b] for a number [a]. *)
Definition js_gt (a : number) (b : jsval) : outcome bool :=
  match ToNumber b with
  | Ret n => Ret (num_gt a n)
  | Throw e => Throw e
  end.

Definition get (now : Z) (key : string) : JS Storage jsval :=
  try_catch
    (item ← getItem (CACHE_PREFIX +:+ key);
     if item_falsy item then mret VNull else
     parsed ← lift (JSON_parse item);
     value ← lift (GetValue parsed "value");
     expiry ← lift (GetValue parsed "expiry");
     expired ← (if strict_neq_Infinity expiry
                then lift (js_gt (Fin now) expiry)
                else mret false);
     if expired : bool
     then removeItem (CACHE_PREFIX +:+ key);; mret VNull
     else mret value)
    (fun _ => mret VNull).

Definition set (now : Z) (key : string) (value : jsval) (ttlMs : number)
  : JS Storage unit :=
  try_catch
    (let item :=
       VObj [("value", value); ("expiry", VNum (num_add (Fin now) ttlMs))] in
     setItem (CACHE_PREFIX +:+ key) (JSON_stringify item))
    (fun _ => console_warn).

Definition remove (key : string) : JS Storage unit :=
  removeItem (CACHE_PREFIX +:+ key).
End ops.

(** The entry held for [key]: the [value] and the [expiry] of the object
    whose text is stored under the namespaced key. *)
Definition entry (key : string) (ls : Storage) : option (jsval * jsval) :=
  match ls !! (CACHE_PREFIX +:+ key) with
  | Some (Json (VObj props)) =>
      Some (obj_get "value" props, obj_get "expiry" props)
  | _ => None
  end.

(** [key && key.startsWith(CACHE_PREFIX)] *)
Definition is_namespaced (key : option string) : bool :=
  match key with
  | None => false
  | Some k => negb (String.eqb k "") && String.prefix CACHE_PREFIX k
  end.

(** The bound [localStorage.length] of the loop does not change while it
    runs (its body only reads), so it is read once. *)
Definition clearAll : JS Storage unit :=
  n ← localStorage_length;
  keys ← for_range 0 n
    (fun i keys =>
       key ← localStorage_key i;
       mret (if is_namespaced key then keys ++ [default "" key] else keys))
    [];
  forEach removeItem keys.
End cache.

(** ** The session store: [sessionCache] *)

Module sessionCache.
Record item : Type := { value : jsval; expiry : number }.

(** [this.data], a [Map] from keys to items. *)
Abbreviation Data := (gmap string item).

Definition get (now : Z) (key : string) : JS Data jsval :=
  fun data =>
    match data !! key with
    | None => (Ret VNull, data)
    | Some item =>
        if negb (bool_decide (expiry item = PInf))
           && num_gt (Fin now) (expiry item)
        then (Ret VNull, delete key data)
        else (Ret (value item), data)
    end.

Definition set (now : Z) (key : string) (value : jsval) (ttlMs : number)
  : JS Data unit :=
  fun data =>
    (Ret tt,
     <[key := {| value := value; expiry := num_add (Fin now) ttlMs |}]> data).

Definition remove (key : string) : JS Data unit :=
  fun data => (Ret tt, delete key data).

Definition clear : JS Data unit :=
  fun _ => (Ret tt, ∅).
End sessionCache.

(** ** The registry of known resources: [permanentResourceCache] *)

Module permanentResourceCache.
Record resource : Type :=
  { ticker : string; address : string; iconUrl : jsval }.

Definition REGISTRY_KEY : string := CACHE_PREFIX +:+ RESOURCE_CACHE_KEY.

(** [{ address, iconUrl: iconUrl || null }] *)
Definition entry (address : string) (iconUrl : jsval) : jsval :=
  VObj [("address", VStr address); ("iconUrl", js_or iconUrl VNull)].

Definition getAll : JS Storage jsval :=
  try_catch
    (item ← getItem REGISTRY_KEY;
     if item_falsy item then mret (VObj []) else
     lift (JSON_parse item))
    (fun _ => mret (VObj [])).

Definition add (ticker address : string) (iconUrl : jsval) : JS Storage unit :=
  try_catch
    (resources ← getAll;
     resources ← lift (Put resources ticker (entry address iconUrl));
     setItem REGISTRY_KEY (JSON_stringify resources))
    (fun _ => console_warn).

Definition addMultiple (resources : list resource) : JS Storage unit :=
  try_catch
    (cache ← getAll;
     cache ← lift (for_of
                     (fun cache r =>
                        Put cache (ticker r) (entry (address r) (iconUrl r)))
                     cache resources);
     setItem REGISTRY_KEY (JSON_stringify cache))
    (fun _ => console_warn).

Definition get (ticker : string) : JS Storage member :=
  all ← getAll;
  found ← lift (Get all ticker);
  mret (member_or found VNull).

Definition clear : JS Storage unit :=
  removeItem REGISTRY_KEY.

(** The state of the registry key that the operations above keep: no string,
    or a string that is not JSON (read as the empty registry), or the text of
    an object. *)
Definition registry_ok (ls : Storage) : bool :=
  match ls !! REGISTRY_KEY with
  | None | Some (Raw _) => true
  | Some (Json (VObj props)) => serializable (VObj props)
  | Some (Json _) => false
  end.

(** The properties of the registry object in such a state. *)
Definition registry_props (ls : Storage) : list (string * jsval) :=
  match ls !! REGISTRY_KEY with
  | Some (Json (VObj props)) => props
  | _ => []
  end.

(** The entry as it is read back from the stored text. *)
Definition stored_entry (address : string) (iconUrl : jsval) : jsval :=
  default VNull (JSON_roundtrip (entry address iconUrl)).

(** The properties of the registry after the loop of [addMultiple], as they
    are read back: each resource in turn sets the property of its ticker. *)
Definition merged (resources : list resource) (props : list (string * jsval))
  : list (string * jsval) :=
  foldl
    (fun ps r => own_put (ticker r) (stored_entry (address r) (iconUrl r)) ps)
    props resources.
End permanentResourceCache.

(** ** The manifest builders

    [CONFIG] ([src/config.js]) is not part of the sources at hand: the one
    field the builders read, [componentAddress], is a parameter. *)

Record Config : Type := { componentAddress : string }.

Record Resource : Type := { resourceAddress : string; amount : string }.

(** The line feed and the double quote. *)
Definition nl : string := String "010"%char "".
Definition dq : string := String "034"%char "".

(** ["${s}"], inside a template literal. *)
Definition quoted (s : string) : string := dq +:+ s +:+ dq.

(** A template literal, given line by line. *)
Definition template (lines : list string) : string := String.concat nl lines.

(** [a.join(sep)] on an array of strings. *)
Definition join (sep : string) (a : list string) : string :=
  String.concat sep a.

(** White space and line terminators below U+0100. *)
Definition is_white_space (c : ascii) : bool :=
  match nat_of_ascii c with
  | 9%nat | 10%nat | 11%nat | 12%nat | 13%nat | 32%nat | 160%nat => true
  | _ => false
  end.

Fixpoint trimStart (s : string) : string :=
  match s with
  | EmptyString => EmptyString
  | String c s' => if is_white_space c then trimStart s' else s
  end.

Fixpoint trimEnd (s : string) : string :=
  match s with
  | EmptyString => EmptyString
  | String c s' =>
      match trimEnd s' with
      | EmptyString => if is_white_space c then EmptyString else String c ""
      | t => String c t
      end
  end.

(** [s.trim()] *)
Definition trim (s : string) : string := trimEnd (trimStart s).

(** [l.forEach((x, index) => { acc = f(acc, x, index) })], counting from
    [index]. *)
Fixpoint forEach_index {A B} (f : B -> A -> nat -> B) (acc : B) (l : list A)
  (index : nat) : B :=
  match l with
  | [] => acc
  | x :: l' => forEach_index f (f acc x index) l' (S index)
  end.

Section manifests.
Variable CONFIG : Config.

Definition buildInCaveManifest (accountAddress nftCollection nftId : string)
    (resources : list Resource) : string :=
  let manifest := template
    [ "";
      "CALL_METHOD";
      "  Address(" +:+ quoted accountAddress +:+ ")";
      "  " +:+ quoted "create_proof_of_non_fungibles";
      "  Address(" +:+ quoted nftCollection +:+ ")";
      "  Array<NonFungibleLocalId>(NonFungibleLocalId("
        +:+ quoted nftId +:+ "))";
      ";";
      "";
      "POP_FROM_AUTH_ZONE";
      "  Proof(" +:+ quoted "nft_proof" +:+ ")";
      ";";
      "" ] in
  let manifest :=
    forEach_index
      (fun manifest resource index =>
         manifest +:+ template
           [ "";
             "CALL_METHOD";
             "  Address(" +:+ quoted accountAddress +:+ ")";
             "  " +:+ quoted "withdraw";
             "  Address(" +:+ quoted (resourceAddress resource) +:+ ")";
             "  Decimal(" +:+ quoted (amount resource) +:+ ")";
             ";";
             "";
             "TAKE_FROM_WORKTOP";
             "  Address(" +:+ quoted (resourceAddress resource) +:+ ")";
             "  Decimal(" +:+ quoted (amount resource) +:+ ")";
             "  Bucket(" +:+ quoted ("bucket_" +:+ pretty index) +:+ ")";
             ";";
             "" ])
      manifest resources 0%nat in
  let bucketArray :=
    join ", "
      (imap (fun index _ =>
               "Bucket(" +:+ quoted ("bucket_" +:+ pretty index) +:+ ")")
         resources) in
  let manifest := manifest +:+ template
    [ "";
      "CALL_METHOD";
      "  Address(" +:+ quoted (componentAddress CONFIG) +:+ ")";
      "  " +:+ quoted "in_cave";
      "  Proof(" +:+ quoted "nft_proof" +:+ ")";
      "  Array<Bucket>(" +:+ bucketArray +:+ ")";
      ";";
      "" ] in
  trim manifest.

Definition buildOutCaveManifest (accountAddress nftCollection nftId : string)
    (withdrawals : list Resource) : string :=
  let withdrawalTuples :=
    join ", "
      (map (fun w =>
              "Tuple(Address(" +:+ quoted (resourceAddress w)
                +:+ "), Decimal(" +:+ quoted (amount w) +:+ "))")
         withdrawals) in
  let manifest := template
    [ "";
      "CALL_METHOD";
      "  Address(" +:+ quoted accountAddress +:+ ")";
      "  " +:+ quoted "create_proof_of_non_fungibles";
      "  Address(" +:+ quoted nftCollection +:+ ")";
      "  Array<NonFungibleLocalId>(NonFungibleLocalId("
        +:+ quoted nftId +:+ "))";
      ";";
      "";
      "POP_FROM_AUTH_ZONE";
      "  Proof(" +:+ quoted "nft_proof" +:+ ")";
      ";";
      "";
      "CALL_METHOD";
      "  Address(" +:+ quoted (componentAddress CONFIG) +:+ ")";
      "  " +:+ quoted "out_cave";
      "  Proof(" +:+ quoted "nft_proof" +:+ ")";
      "  Array<Tuple>(" +:+ withdrawalTuples +:+ ")";
      ";";
      "";
      "CALL_METHOD";
      "  Address(" +:+ quoted accountAddress +:+ ")";
      "  " +:+ quoted "deposit_batch";
      "  Expression(" +:+ quoted "ENTIRE_WORKTOP" +:+ ")";
      ";";
      "" ] in
  trim manifest.

Definition buildLookCaveManifest (accountAddress nftCollection nftId : string)
    (resourceAddresses : list string) : string :=
  let addressArray :=
    join ", "
      (map (fun addr => "Address(" +:+ quoted addr +:+ ")")
         resourceAddresses) in
  let manifest := template
    [ "";
      "CALL_METHOD";
      "  Address(" +:+ quoted accountAddress +:+ ")";
      "  " +:+ quoted "create_proof_of_non_fungibles";
      "  Address(" +:+ quoted nftCollection +:+ ")";
      "  Array<NonFungibleLocalId>(NonFungibleLocalId("
        +:+ quoted nftId +:+ "))";
      ";";
      "";
      "POP_FROM_AUTH_ZONE";
      "  Proof(" +:+ quoted "nft_proof" +:+ ")";
      ";";
      "";
      "CALL_METHOD";
      "  Address(" +:+ quoted (componentAddress CONFIG) +:+ ")";
      "  " +:+ quoted "query_balances";
      "  Proof(" +:+ quoted "nft_proof" +:+ ")";
      "  Array<Address>(" +:+ addressArray +:+ ")";
      ";";
      "" ] in
  trim manifest.
End manifests.

(** ** Manifests as the specification describes them

    The specification speaks of a manifest as a sequence of statements.  The
    definitions below follow its words: the statements, their arguments, and
    the text of each in the ledger's manifest grammar.  The builders above
    are compared with them. *)

#[warnings="-register-all"] Inductive mvalue : Type :=
  | MAddress (a : string)
  | MDecimal (d : string)
  | MString (s : string)
  | MProof (name : string)
  | MBucket (name : string)
  | MNonFungibleLocalId (id : string)
  | MExpression (e : string)
  | MTuple (elems : list mvalue)
  | MArray (type : string) (elems : list mvalue).

Inductive instruction : Type :=
  | CALL_METHOD (address method : string) (args : list mvalue)
  | POP_FROM_AUTH_ZONE (proof : string)
  | TAKE_FROM_WORKTOP (resource amount bucket : string).

Fixpoint render_value (v : mvalue) : string :=
  match v with
  | MAddress a => "Address(" +:+ quoted a +:+ ")"
  | MDecimal d => "Decimal(" +:+ quoted d +:+ ")"
  | MString s => quoted s
  | MProof name => "Proof(" +:+ quoted name +:+ ")"
  | MBucket name => "Bucket(" +:+ quoted name +:+ ")"
  | MNonFungibleLocalId id => "NonFungibleLocalId(" +:+ quoted id +:+ ")"
  | MExpression e => "Expression(" +:+ quoted e +:+ ")"
  | MTuple elems =>
      "Tuple(" +:+ String.concat ", " (map render_value elems) +:+ ")"
  | MArray type elems =>
      "Array<" +:+ type +:+ ">("
        +:+ String.concat ", " (map render_value elems) +:+ ")"
  end.

(** A statement: its name, one indented line for each argument, and the
    terminator on a line of its own. *)
Definition instruction_lines (i : instruction) : list string :=
  let indent := fun s : string => "  " +:+ s in
  match i with
  | CALL_METHOD address method args =>
      ["CALL_METHOD"; indent (render_value (MAddress address));
       indent (render_value (MString method))]
      ++ map (fun v => indent (render_value v)) args ++ [";"]
  | POP_FROM_AUTH_ZONE proof =>
      ["POP_FROM_AUTH_ZONE"; indent (render_value (MProof proof)); ";"]
  | TAKE_FROM_WORKTOP resource amount bucket =>
      ["TAKE_FROM_WORKTOP"; indent (render_value (MAddress resource));
       indent (render_value (MDecimal amount));
       indent (render_value (MBucket bucket)); ";"]
  end.

Definition render_instruction (i : instruction) : string :=
  String.concat nl (instruction_lines i).

(** A manifest: its statements, one blank line between two of them. *)
Definition render_manifest (l : list instruction) : string :=
  String.concat (nl +:+ nl) (map render_instruction l).

(** The lines of a manifest. *)
Fixpoint manifest_lines (l : list instruction) : list string :=
  match l with
  | [] => []
  | i :: rest =>
      match rest with
      | [] => instruction_lines i
      | _ :: _ => instruction_lines i ++ "" :: manifest_lines rest
      end
  end.

(** The lines before the closing [";"; ""] of a template literal. *)
Fixpoint strip_terminator (lines : list string) : option (list string) :=
  match lines with
  | [] => None
  | x :: rest =>
      match rest with
      | [y] =>
          if String.eqb x ";" && String.eqb y "" then Some [] else None
      | _ => cons x <$> strip_terminator rest
      end
  end.

(** The proof-creation preamble: a proof of ownership of the given
    non-fungible, popped into the proof slot [nft_proof]. *)
Definition proof_preamble (accountAddress nftCollection nftId : string)
  : list instruction :=
  [ CALL_METHOD accountAddress "create_proof_of_non_fungibles"
      [MAddress nftCollection;
       MArray "NonFungibleLocalId" [MNonFungibleLocalId nftId]];
    POP_FROM_AUTH_ZONE "nft_proof" ].

(** The bucket of the resource at position [index]. *)
Definition bucket_name (index : nat) : string := "bucket_" +:+ pretty index.

(** Withdraw from the account, then take into the bucket of the position. *)
Definition withdraw_and_take (accountAddress : string) (index : nat)
    (r : Resource) : list instruction :=
  [ CALL_METHOD accountAddress "withdraw"
      [MAddress (resourceAddress r); MDecimal (amount r)];
    TAKE_FROM_WORKTOP (resourceAddress r) (amount r) (bucket_name index) ].

(** The deposit manifest of the specification. *)
Definition deposit_manifest (component accountAddress nftCollection nftId : string)
    (resources : list Resource) : list instruction :=
  proof_preamble accountAddress nftCollection nftId
  ++ mjoin (imap (withdraw_and_take accountAddress) resources)
  ++ [ CALL_METHOD component "in_cave"
         [MProof "nft_proof";
          MArray "Bucket"
            (imap (fun index _ => MBucket (bucket_name index)) resources)] ].

(** The lines that the resources from position [index] on add to a
    manifest: a blank line and the two statements, for each. *)
Fixpoint withdraw_and_take_lines (accountAddress : string)
    (resources : list Resource) (index : nat) : list string :=
  match resources with
  | [] => []
  | r :: rest =>
      "" :: manifest_lines (withdraw_and_take accountAddress index r)
      ++ withdraw_and_take_lines accountAddress rest (S index)
  end.

(** The withdrawal manifest of the specification. *)
Definition withdraw_manifest (component accountAddress nftCollection nftId : string)
    (withdrawals : list Resource) : list instruction :=
  proof_preamble accountAddress nftCollection nftId
  ++ [ CALL_METHOD component "out_cave"
         [MProof "nft_proof";
          MArray "Tuple"
            (map (fun w =>
                    MTuple [MAddress (resourceAddress w); MDecimal (amount w)])
               withdrawals)];
       CALL_METHOD accountAddress "deposit_batch"
         [MExpression "ENTIRE_WORKTOP"] ].

(** The query manifest of the specification. *)
Definition query_manifest (component accountAddress nftCollection nftId : string)
    (resourceAddresses : list string) : list instruction :=
  proof_preamble accountAddress nftCollection nftId
  ++ [ CALL_METHOD component "query_balances"
         [MProof "nft_proof";
          MArray "Address" (map MAddress resourceAddresses)] ].

(** The statements that move resources: a withdrawal from an account, a
    deposit into one, a call of the deposit or of the withdraw entrypoint of
    the component, a take from the worktop. *)
Definition is_withdraw_deposit_or_take (i : instruction) : bool :=
  match i with
  | CALL_METHOD _ method _ =>
      bool_decide
        (method ∈ ["withdraw"; "deposit"; "deposit_batch"; "in_cave";
                   "out_cave"])
  | POP_FROM_AUTH_ZONE _ => false
  | TAKE_FROM_WORKTOP _ _ _ => true
  end.

(** ** Manifests that are read back as they were written

    The builders put a string between two double quotes as it is.  Read
    back by the grammar, a string ends at the first double quote after the
    opening one, and a type name at the first [>]: the text of a statement
    tells its arguments when no string holds a double quote and no type
    name a [>]. *)

(** Whether the character [c] occurs in [s]. *)
Fixpoint has_char (c : ascii) (s : string) : bool :=
  match s with
  | EmptyString => false
  | String x s' => Ascii.eqb c x || has_char c s'
  end.

Definition quote_free (s : string) : bool := negb (has_char "034"%char s).

Fixpoint quote_free_value (v : mvalue) : bool :=
  match v with
  | MAddress s | MDecimal s | MString s | MProof s | MBucket s
  | MNonFungibleLocalId s | MExpression s => quote_free s
  | MTuple elems => forallb quote_free_value elems
  | MArray type elems =>
      negb (has_char ">"%char type) && forallb quote_free_value elems
  end.

Definition quote_free_instruction (i : instruction) : bool :=
  match i with
  | CALL_METHOD address method args =>
      quote_free address && quote_free method
      && forallb quote_free_value args
  | POP_FROM_AUTH_ZONE proof => quote_free proof
  | TAKE_FROM_WORKTOP resource amount bucket =>
      quote_free resource && quote_free amount && quote_free bucket
  end.

Definition quote_free_manifest (l : list instruction) : bool :=
  forallb quote_free_instruction l.

Definition quote_free_resource (r : Resource) : bool :=
  quote_free (resourceAddress r) && quote_free (amount r).

(** The text of [v] is read back from the front of a text: what follows it
    does not change what is read. *)
Definition delimited (v : mvalue) : Prop :=
  quote_free_value v = true ->
  ∀ (v' : mvalue) (r r' : string),
    quote_free_value v' = true ->
    render_value v +:+ r = render_value v' +:+ r' -> v = v' ∧ r = r'.

(** Induction on argument values that reaches the elements of tuples and
    arrays. *)
Section mvalue_induction.
Variable P : mvalue -> Prop.
Hypothesis HAddress : forall a, P (MAddress a).
Hypothesis HDecimal : forall d, P (MDecimal d).
Hypothesis HString : forall s, P (MString s).
Hypothesis HProof : forall name, P (MProof name).
Hypothesis HBucket : forall name, P (MBucket name).
Hypothesis HNonFungibleLocalId : forall id, P (MNonFungibleLocalId id).
Hypothesis HExpression : forall e, P (MExpression e).
Hypothesis HTuple : forall elems, Forall P elems -> P (MTuple elems).
Hypothesis HArray : forall type elems, Forall P elems -> P (MArray type elems).

Fixpoint mvalue_deep_ind (v : mvalue) : P v :=
  match v with
  | MAddress a => HAddress a
  | MDecimal d => HDecimal d
  | MString s => HString s
  | MProof name => HProof name
  | MBucket name => HBucket name
  | MNonFungibleLocalId id => HNonFungibleLocalId id
  | MExpression e => HExpression e
  | MTuple elems =>
      HTuple elems
        ((fix all (l : list mvalue) : Forall P l :=
            match l with
            | [] => Forall_nil_2 P
            | e :: l' => Forall_cons_2 P e l' (mvalue_deep_ind e) (all l')
            end) elems)
  | MArray type elems =>
      HArray type elems
        ((fix all (l : list mvalue) : Forall P l :=
            match l with
            | [] => Forall_nil_2 P
            | e :: l' => Forall_cons_2 P e l' (mvalue_deep_ind e) (all l')
            end) elems)
  end.
End mvalue_induction.

(** ** The controller, up to the manifest it builds

    Of [handleTransaction] and [handleLookup] ([src/main.js]) the guard and
    the choice of the builder are modelled: what comes after (the wallet,
    the gateway, the modal) is outside. *)

Record Account : Type := { account_address : string }.
Record Nft : Type := { collection : string; id : string }.

Record TransactionData : Type :=
  { mode : string; nft : option Nft; resources : list Resource }.

Inductive built : Type :=
  | NotBuilt                         (* returned before building *)
  | Built (manifest : string)
  | InvalidMode.                     (* [throw new Error(...)] *)

Section controller.
Variable CONFIG : Config.

Definition handleTransaction (currentAccount : option Account)
    (data : TransactionData) : built :=
  match currentAccount, nft data, resources data with
  | Some currentAccount, Some nft, _ :: _ =>
      let resources :=
        map (fun r => {| resourceAddress := resourceAddress r;
                         amount := amount r |})
          (resources data) in
      if String.eqb (mode data) "in" then
        Built (buildInCaveManifest CONFIG (account_address currentAccount)
                 (collection nft) (id nft) resources)
      else if String.eqb (mode data) "out" then
        Built (buildOutCaveManifest CONFIG (account_address currentAccount)
                 (collection nft) (id nft) resources)
      else InvalidMode
  | _, _, _ => NotBuilt
  end.

Definition handleLookup (currentAccount : option Account)
    (data : TransactionData) : built :=
  match currentAccount, nft data, resources data with
  | Some currentAccount, Some nft, _ :: _ =>
      let resourceAddresses := map resourceAddress (resources data) in
      Built (buildLookCaveManifest CONFIG (account_address currentAccount)
               (collection nft) (id nft) resourceAddresses)
  | _, _, _ => NotBuilt
  end.
End controller.

(** ** The controller, after the wallet has answered

    What [handleTransaction] does to the stores once the wallet has accepted
    the transaction, and what the subscription to the wallet does when the
    list of accounts changes ([src/main.js]); the modal, the buttons and the
    status line are outside. *)

Module main.
Record resource : Type :=
  { resourceAddress : string; amount : string; symbol : string;
    iconUrl : jsval }.

(** The two stores and the module variable [currentAccount]. *)
Record state : Type :=
  { localStorage : Storage;
    session : sessionCache.Data;
    currentAccount : option Account }.

(** [sessionCache.remove(`fungibles:${address}`)], then the same for
    [nfts:]. *)
Definition invalidate (address : string) : JS sessionCache.Data unit :=
  sessionCache.remove ("fungibles:" +:+ address);;
  sessionCache.remove ("nfts:" +:+ address).

(** [resources.map(r => ({ ticker: r.symbol, address: r.resourceAddress,
    iconUrl: r.iconUrl }))] *)
Definition resourcesToCache (resources : list resource)
  : list permanentResourceCache.resource :=
  map (fun r =>
         {| permanentResourceCache.ticker := symbol r;
            permanentResourceCache.address := resourceAddress r;
            permanentResourceCache.iconUrl := iconUrl r |})
    resources.

(** The branch of [handleTransaction] after [result.isErr()] was false.
    [currentAccount] is read again there: when it has become [null] in the
    meantime, [currentAccount.address] throws, the [catch] of
    [handleTransaction] takes over and the session store is left as it is. *)
Definition handleTransaction_success (mode : string)
    (resources : list resource) (st : state) : state :=
  if String.eqb mode "in" then
    let ls :=
      (permanentResourceCache.addMultiple (resourcesToCache resources)
         (localStorage st)).2 in
    match currentAccount st with
    | Some account =>
        {| localStorage := ls;
           session := (invalidate (account_address account) (session st)).2;
           currentAccount := currentAccount st |}
    | None =>
        {| localStorage := ls; session := session st;
           currentAccount := currentAccount st |}
    end
  else if String.eqb mode "out" then
    match currentAccount st with
    | Some account =>
        {| localStorage := localStorage st;
           session := (invalidate (account_address account) (session st)).2;
           currentAccount := currentAccount st |}
    | None => st
    end
  else st.

(** [onAccountConnected] and [onAccountDisconnected], for the stores. *)
Definition onAccountConnected (st : state) : state :=
  {| localStorage := localStorage st;
     session := (sessionCache.clear (session st)).2;
     currentAccount := currentAccount st |}.

Definition onAccountDisconnected (st : state) : state :=
  {| localStorage := localStorage st;
     session := (sessionCache.clear (session st)).2;
     currentAccount := None |}.

(** The callback given to [walletData$.subscribe], on [walletData.accounts]. *)
Definition onWalletData (accounts : list Account) (st : state) : state :=
  match accounts with
  | account :: _ =>
      onAccountConnected
        {| localStorage := localStorage st; session := session st;
           currentAccount := Some account |}
  | [] =>
      onAccountDisconnected
        {| localStorage := localStorage st; session := session st;
           currentAccount := None |}
  end.
End main.

(** ** The development server

    The middleware of [vite.config.js], on [req.url]. *)
Definition docs_middleware (url : string) : string :=
  if String.eqb url "/docs" || String.eqb url "/docs/"
  then "/docs/index.html"
  else url.

(** * Properties *)

(** ** JSON texts *)

Lemma JSON_roundtrip_serializable (v : jsval) :
  serializable v = true -> JSON_roundtrip v = Some v.
Proof.
  induction v as [| |b|n|s|elems IH|props IH] using jsval_deep_ind;
    simpl; intros Hs; try done.
  - by destruct n.
  - do 2 f_equal. induction IH as [|e l He _ IHl]; [done|].
    simpl in Hs. apply andb_prop in Hs as [Hs1 Hs2].
    simpl. by rewrite He, IHl.
  - do 2 f_equal. induction IH as [|[k x] l Hx _ IHl]; [done|].
    simpl in Hs. apply andb_prop in Hs as [Hs1 Hs2].
    simpl in Hx. by rewrite Hx, IHl.
Qed.

(** ** Running computations *)

Ltac js_unfold :=
  unfold try_catch, lift, console_warn, getItem, setItem, removeItem,
    localStorage_length, localStorage_key,
    mbind, mret, JS_bind, JS_ret, outcome_bind, outcome_ret in *.

Lemma forEach_removeItem (keys : list string) (ls : Storage) :
  forEach removeItem keys ls = (Ret tt, foldl (fun m k => delete k m) ls keys).
Proof.
  revert ls. induction keys as [|k keys IH]; intros ls; [done|].
  simpl. js_unfold. by rewrite IH.
Qed.

Lemma lookup_foldl_delete (keys : list string) (ls : Storage) (k : string) :
  foldl (fun m k => delete k m) ls keys !! k
  = if bool_decide (k ∈ keys) then None else ls !! k.
Proof.
  revert ls. induction keys as [|k' keys IH]; intros ls; cbn [foldl].
  - case_bool_decide as H; [by apply elem_of_nil in H|done].
  - rewrite IH. destruct (decide (k = k')) as [->|Hne].
    + rewrite lookup_delete_eq.
      rewrite (bool_decide_eq_true_2 (k' ∈ k' :: keys)) by left.
      by case_bool_decide.
    + rewrite lookup_delete_ne by done.
      rewrite (bool_decide_ext (k ∈ k' :: keys) (k ∈ keys)); [done|].
      rewrite elem_of_cons. split; [by intros [?|?]|by right].
Qed.

Lemma is_namespaced_Some (k : string) :
  cache.is_namespaced (Some k) = String.prefix CACHE_PREFIX k.
Proof. by destruct k. Qed.

(** The loop of [clearAll] collects the namespaced keys, in the order of
    [localStorage.key], and leaves the store as it is. *)
Lemma clearAll_loop (ls : Storage) (n from : nat) (acc : list string) :
  for_range from n
    (fun i keys =>
       key ← localStorage_key i;
       mret (if cache.is_namespaced key then keys ++ [default "" key]
             else keys))
    acc ls
  = (Ret (acc ++ List.filter (String.prefix CACHE_PREFIX)
                   (take n (drop from (map_to_list ls).*1))), ls).
Proof.
  revert from acc. induction n as [|n IH]; intros from acc.
  - simpl. by rewrite app_nil_r.
  - cbn [for_range]. js_unfold.
    destruct ((map_to_list ls).*1 !! from) as [k|] eqn:Hk.
    + rewrite IH. rewrite (drop_S _ _ _ Hk). cbn [take List.filter].
      rewrite is_namespaced_Some. destruct (String.prefix CACHE_PREFIX k); simpl.
      * by rewrite <- app_assoc.
      * done.
    + rewrite IH. apply lookup_ge_None in Hk.
      rewrite (drop_ge _ from) by done.
      rewrite (drop_ge _ (S from)) by lia.
      by rewrite !take_nil.
Qed.

Lemma elem_of_keys (ls : Storage) (k : string) :
  k ∈ (map_to_list ls).*1 ↔ is_Some (ls !! k).
Proof.
  rewrite list_elem_of_fmap. split.
  - intros [[k' t] [-> Hin]]. apply elem_of_map_to_list in Hin. by exists t.
  - intros [t Ht]. exists (k, t). split; [done|]. by apply elem_of_map_to_list.
Qed.

(** C8: [cache.clearAll] returns normally, removes every key that starts
    with the namespace prefix and leaves every other key with the string it
    held. *)
Theorem clearAll_removes_exactly_namespaced (ls : Storage) :
  (cache.clearAll ls).1 = Ret tt
  ∧ ∀ k : string,
      (cache.clearAll ls).2 !! k
      = if String.prefix CACHE_PREFIX k then None else ls !! k.
Proof.
  unfold cache.clearAll. js_unfold. rewrite clearAll_loop.
  rewrite forEach_removeItem. split; [done|]. intros k. cbn [snd].
  rewrite lookup_foldl_delete, drop_0, app_nil_l.
  rewrite take_ge by (by rewrite length_fmap, length_map_to_list).
  destruct (String.prefix CACHE_PREFIX k) eqn:Hp.
  - case_bool_decide as Hin; [done|].
    destruct (ls !! k) as [t|] eqn:Hk; [|done].
    exfalso. apply Hin. apply list_elem_of_In, filter_In. split; [|done].
    apply list_elem_of_In, elem_of_keys. by exists t.
  - case_bool_decide as Hin; [|done].
    apply list_elem_of_In, filter_In in Hin as [_ Hin]. congruence.
Qed.

(** ** Expiry *)

Lemma obj_get_not_has (k : string) (props : list (string * jsval)) :
  obj_has k props = false -> obj_get k props = VUndefined.
Proof.
  induction props as [|[k' v'] props IH]; simpl; [done|].
  by destruct (String.eqb k k').
Qed.

(** Under a name that [Object.prototype] does not hold, a read gives the own
    property, or [undefined]. *)
Lemma GetValue_VObj (k : string) (props : list (string * jsval)) :
  inherited k = Value VUndefined ->
  GetValue (VObj props) k = Ret (obj_get k props).
Proof.
  intros Hk. unfold GetValue, Get, obj_read. rewrite Hk.
  destruct (obj_has k props) eqn:Hhas; [done|].
  by rewrite obj_get_not_has.
Qed.

Lemma cache_get_entry tn (now : Z) (key : string) (v expiry : jsval)
    (ls : Storage) :
  cache.entry key ls = Some (v, expiry) ->
  cache.get tn now key ls
  = match (if strict_neq_Infinity expiry
           then cache.js_gt tn (Fin now) expiry else Ret false) with
    | Ret true => (Ret VNull, delete (CACHE_PREFIX +:+ key) ls)
    | Ret false => (Ret v, ls)
    | Throw _ => (Ret VNull, ls)
    end.
Proof.
  unfold cache.entry, cache.get. js_unfold. intros He.
  destruct (ls !! (CACHE_PREFIX +:+ key)) as [[[]|]|] eqn:Hk; try done.
  simplify_eq. cbn [item_falsy JSON_parse].
  rewrite !GetValue_VObj by done.
  destruct (strict_neq_Infinity _); [|done].
  by destruct (cache.js_gt _ _ _) as [[]|].
Qed.

(** C1, as the code has it: an entry with a finite expiry time stamp is
    returned by [get] at every time up to and including that time stamp, in
    both stores; at every later time [get] returns [null] and removes the
    entry from the store. *)
Theorem get_expires_strictly_after_expiry tn (now e : Z) (key : string)
    (v : jsval) (ls : Storage) (data : sessionCache.Data) :
  cache.entry key ls = Some (v, VNum (Fin e)) ->
  data !! key = Some {| sessionCache.value := v; sessionCache.expiry := Fin e |} ->
  (now <= e ->
     cache.get tn now key ls = (Ret v, ls)
     ∧ sessionCache.get now key data = (Ret v, data))
  ∧ (e < now ->
     cache.get tn now key ls = (Ret VNull, delete (CACHE_PREFIX +:+ key) ls)
     ∧ sessionCache.get now key data = (Ret VNull, delete key data)).
Proof.
  intros Hls Hdata. rewrite (cache_get_entry _ _ _ _ _ _ Hls).
  unfold sessionCache.get. rewrite Hdata. simpl.
  split; intros Hnow.
  - by rewrite bool_decide_eq_false_2 by lia.
  - by rewrite bool_decide_eq_true_2 by lia.
Qed.

Lemma get_expires_strictly_after_expiry_witness :
  let ls : Storage :=
    {[ "hypercave_k" :=
         Json (VObj [("value", VStr "v"); ("expiry", VNum (Fin 1000))]) ]} in
  let data : sessionCache.Data :=
    {[ "k" := {| sessionCache.value := VStr "v";
                 sessionCache.expiry := Fin 1000 |} ]} in
  (cache.get (fun _ => Ret NaN) 1000 "k" ls = (Ret (VStr "v"), ls)
   ∧ sessionCache.get 1000 "k" data = (Ret (VStr "v"), data))
  ∧ (cache.get (fun _ => Ret NaN) 1001 "k" ls
     = (Ret VNull, delete (CACHE_PREFIX +:+ "k") ls)
     ∧ sessionCache.get 1001 "k" data = (Ret VNull, delete "k" data)).
Proof.
  intros ls data. split.
  - apply (get_expires_strictly_after_expiry (fun _ => Ret NaN) 1000 1000 "k"
             (VStr "v") ls data); [reflexivity | reflexivity | lia].
  - apply (get_expires_strictly_after_expiry (fun _ => Ret NaN) 1001 1000 "k"
             (VStr "v") ls data); [reflexivity | reflexivity | lia].
Defined.

(** C1 as stated fails at the boundary: an entry read exactly at its expiry
    time stamp is still returned, in both stores. *)
Lemma get_at_expiry_is_not_null :
  ¬ (∀ tn (now e : Z) (key : string) (v : jsval) (ls : Storage),
       cache.entry key ls = Some (v, VNum (Fin e)) ->
       e <= now ->
       (cache.get tn now key ls).1 = Ret VNull)
  ∧ ¬ (∀ (now e : Z) (key : string) (v : jsval) (data : sessionCache.Data),
       data !! key
       = Some {| sessionCache.value := v; sessionCache.expiry := Fin e |} ->
       e <= now ->
       (sessionCache.get now key data).1 = Ret VNull).
Proof.
  split.
  - intros H.
    specialize (H (fun _ => Ret NaN) 1000 1000 "k" (VStr "v")
      {[ "hypercave_k" :=
           Json (VObj [("value", VStr "v"); ("expiry", VNum (Fin 1000))]) ]}).
    discriminate H; [reflexivity | lia].
  - intros H.
    specialize (H 1000 1000 "k" (VStr "v")
      {[ "k" := {| sessionCache.value := VStr "v";
                   sessionCache.expiry := Fin 1000 |} ]}).
    discriminate H; [reflexivity | lia].
Qed.

(** ** The infinite time to live *)

Lemma cache_entry_set (now : Z) (key : string) (v : jsval) (ttlMs : number)
    (ls : Storage) :
  cache.entry key (cache.set now key v ttlMs ls).2
  = Some (default VUndefined (JSON_roundtrip v),
          match num_add (Fin now) ttlMs with
          | Fin e => VNum (Fin e)
          | _ => VNull
          end).
Proof.
  unfold cache.entry, cache.set, JSON_stringify. js_unfold. cbn [snd].
  rewrite lookup_insert_eq. cbn [JSON_roundtrip].
  destruct (JSON_roundtrip v) as [v'|];
    by destruct (num_add (Fin now) ttlMs).
Qed.

(** In the session store an entry set with [Infinity] is returned at every
    later time. *)
Lemma sessionCache_Infinity_never_expires (t0 now : Z) (key : string)
    (v : jsval) (data : sessionCache.Data) :
  let data' := (sessionCache.set t0 key v PInf data).2 in
  sessionCache.get now key data' = (Ret v, data').
Proof.
  unfold sessionCache.get, sessionCache.set. cbn [snd].
  by rewrite lookup_insert_eq.
Qed.

(** In the persistent store the expiry [Infinity] is written as [null],
    which every later [get] reads as time 0: the entry is dropped by the
    first read. *)
Lemma cache_Infinity_expires tn (t0 now : Z) (key : string) (v : jsval)
    (ls : Storage) :
  0 < now ->
  cache.get tn now key (cache.set t0 key v PInf ls).2
  = (Ret VNull, delete (CACHE_PREFIX +:+ key) ls).
Proof.
  intros Hnow.
  rewrite (cache_get_entry _ _ _ _ _ _ (cache_entry_set t0 key v PInf ls)).
  cbn. rewrite bool_decide_eq_true_2 by done.
  unfold cache.set. js_unfold. cbn [snd]. by rewrite delete_insert_eq.
Qed.

(** C2, what the code does: in the persistent store an entry set with the
    TTL [Infinity] at time 1000 is gone when it is read at a later time (here
    ten years later): [get] returns [null] and removes it. *)
Theorem cache_Infinity_entry_is_dropped :
  ∀ tn,
    cache.get tn 315360001000 "k" (cache.set 1000 "k" (VStr "v") PInf ∅).2
    = (Ret VNull, ∅).
Proof. intros tn. vm_compute. reflexivity. Qed.

(** ** [set], then [get] *)

Lemma cache_set_get tn (now ttl : Z) (key : string) (v : jsval) (ls : Storage) :
  serializable v = true -> 0 <= ttl ->
  let ls' := (cache.set now key v (Fin ttl) ls).2 in
  cache.get tn now key ls' = (Ret v, ls').
Proof.
  intros Hv Httl ls'. unfold ls'.
  rewrite (cache_get_entry _ _ _ _ _ _
             (cache_entry_set now key v (Fin ttl) ls)).
  rewrite JSON_roundtrip_serializable by done. cbn.
  by rewrite bool_decide_eq_false_2 by lia.
Qed.

Lemma sessionCache_set_get (now : Z) (ttlMs : number) (key : string)
    (v : jsval) (data : sessionCache.Data) :
  positive_ttl ttlMs ->
  let data' := (sessionCache.set now key v ttlMs data).2 in
  sessionCache.get now key data' = (Ret v, data').
Proof.
  intros Httl. unfold sessionCache.get, sessionCache.set. cbn [snd].
  rewrite lookup_insert_eq. destruct ttlMs as [z| | |]; try done.
  simpl in *. by rewrite bool_decide_eq_false_2 by lia.
Qed.

(** C6, what the code does: in the persistent store [set] with the TTL
    [Infinity], followed at once by [get], returns [null] and not the value
    that was set. *)
Theorem cache_set_Infinity_get_is_null :
  ∀ tn,
    (cache.get tn 1000 "k" (cache.set 1000 "k" (VStr "v") PInf ∅).2).1
    = Ret VNull
    ∧ Ret VNull ≠ Ret (VStr "v").
Proof. intros tn. split; [vm_compute; reflexivity | discriminate]. Qed.

(** ** Objects and their texts *)

Lemma obj_has_replace (k k' : string) (v : jsval)
    (props : list (string * jsval)) :
  obj_has k' (obj_replace k v props) = obj_has k' props.
Proof.
  induction props as [|[k0 v0] props IH]; simpl; [done|].
  destruct (String.eqb k k0) eqn:Hk; simpl.
  - by apply String.eqb_eq in Hk as <-.
  - by rewrite IH.
Qed.

Lemma obj_has_insert (k k' : string) (v : jsval)
    (props : list (string * jsval)) :
  obj_has k' (obj_insert k v props) = String.eqb k' k || obj_has k' props.
Proof.
  induction props as [|[k0 v0] props IH]; simpl; [done|].
  destruct (goes_before k k0); simpl; [done|].
  rewrite IH. by destruct (String.eqb k' k0), (String.eqb k' k).
Qed.

Lemma obj_has_set (k k' : string) (v : jsval)
    (props : list (string * jsval)) :
  obj_has k' (obj_set k v props) = String.eqb k' k || obj_has k' props.
Proof.
  unfold obj_set. destruct (obj_has k props) eqn:Hhas.
  - rewrite obj_has_replace.
    destruct (String.eqb k' k) eqn:Hk; [|done].
    apply String.eqb_eq in Hk as ->. by rewrite Hhas.
  - apply obj_has_insert.
Qed.

Lemma obj_get_set_eq (k : string) (v : jsval) (props : list (string * jsval)) :
  obj_get k (obj_set k v props) = v.
Proof.
  unfold obj_set. destruct (obj_has k props) eqn:Hhas.
  - induction props as [|[k' v'] props IH]; simpl in *; [done|].
    destruct (String.eqb k k') eqn:Hk; simpl.
    + by rewrite String.eqb_refl.
    + rewrite Hk. by apply IH.
  - induction props as [|[k' v'] props IH]; simpl in *.
    + by rewrite String.eqb_refl.
    + destruct (String.eqb k k') eqn:Hk; [done|].
      destruct (goes_before k k'); simpl.
      * by rewrite String.eqb_refl.
      * rewrite Hk. by apply IH.
Qed.

Lemma obj_get_set_ne (k k' : string) (v : jsval)
    (props : list (string * jsval)) :
  k ≠ k' -> obj_get k' (obj_set k v props) = obj_get k' props.
Proof.
  intros Hne. assert (String.eqb k' k = false) as Hk'
    by by apply String.eqb_neq.
  unfold obj_set. destruct (obj_has k props).
  - induction props as [|[k0 v0] props IH]; simpl; [done|].
    destruct (String.eqb k k0) eqn:Hk; simpl.
    + apply String.eqb_eq in Hk as <-. by rewrite Hk'.
    + by rewrite IH.
  - induction props as [|[k0 v0] props IH]; simpl.
    + by rewrite Hk'.
    + destruct (goes_before k k0); simpl.
      * by rewrite Hk'.
      * by rewrite IH.
Qed.

(** What a read finds after [o[k] = v]: the value under [k], unless the
    assignment reached the [__proto__] setter; what was there under every
    other name. *)
Lemma obj_read_put_eq (k : string) (v : jsval)
    (props : list (string * jsval)) :
  k ≠ "__proto__" -> obj_read k (own_put k v props) = Value v.
Proof.
  intros Hk. unfold own_put, obj_read.
  rewrite (proj2 (String.eqb_neq k "__proto__")) by done. cbn [andb].
  by rewrite obj_has_set, String.eqb_refl, obj_get_set_eq.
Qed.

Lemma obj_read_put_ne (k k' : string) (v : jsval)
    (props : list (string * jsval)) :
  k ≠ k' -> obj_read k' (own_put k v props) = obj_read k' props.
Proof.
  intros Hne. unfold own_put, obj_read.
  destruct (String.eqb k "__proto__" && negb (obj_has k props)); [done|].
  rewrite obj_has_set, obj_get_set_ne by done.
  by rewrite (proj2 (String.eqb_neq k' k)) by done.
Qed.

Lemma obj_read_put_proto (v : jsval) (props : list (string * jsval)) :
  obj_has "__proto__" props = false ->
  own_put "__proto__" v props = props.
Proof. intros Hhas. unfold own_put. by rewrite Hhas. Qed.

Lemma JSON_roundtrip_VObj (props : list (string * jsval)) :
  JSON_roundtrip (VObj props) = Some (VObj (roundtrip_props props)).
Proof. done. Qed.

Lemma roundtrip_props_cons (k : string) (x : jsval)
    (rest : list (string * jsval)) :
  roundtrip_props ((k, x) :: rest)
  = match JSON_roundtrip x with
    | Some x' => (k, x') :: roundtrip_props rest
    | None => roundtrip_props rest
    end.
Proof. unfold roundtrip_props. simpl. by destruct (JSON_roundtrip x). Qed.

Lemma obj_has_roundtrip_props (k : string) (props : list (string * jsval)) :
  Forall (fun p => is_Some (JSON_roundtrip p.2)) props ->
  obj_has k (roundtrip_props props) = obj_has k props.
Proof.
  intros Hs. induction Hs as [|[k0 v0] props [v0' Hv0] _ IH]; [done|].
  simpl in Hv0. rewrite roundtrip_props_cons, Hv0. simpl. by rewrite IH.
Qed.

(** Setting a property commutes with writing and reading the text, as long
    as no property is [undefined] (such a property has no text). *)
Lemma roundtrip_props_set (k : string) (v v' : jsval)
    (props : list (string * jsval)) :
  Forall (fun p => is_Some (JSON_roundtrip p.2)) props ->
  JSON_roundtrip v = Some v' ->
  roundtrip_props (obj_set k v props) = obj_set k v' (roundtrip_props props).
Proof.
  intros Hs Hv. unfold obj_set. rewrite obj_has_roundtrip_props by done.
  destruct (obj_has k props).
  - induction Hs as [|[k0 v0] props [v0' Hv0] _ IH]; [done|].
    simpl in Hv0. cbn [obj_replace].
    rewrite (roundtrip_props_cons k0 v0), Hv0.
    cbn [obj_replace]. destruct (String.eqb k k0).
    + by rewrite roundtrip_props_cons, Hv.
    + by rewrite roundtrip_props_cons, Hv0, IH.
  - induction Hs as [|[k0 v0] props [v0' Hv0] _ IH].
    + simpl. by rewrite roundtrip_props_cons, Hv.
    + simpl in Hv0. cbn [obj_insert].
      rewrite (roundtrip_props_cons k0 v0), Hv0.
      cbn [obj_insert]. destruct (goes_before k k0).
      * by rewrite !roundtrip_props_cons, Hv, Hv0.
      * by rewrite roundtrip_props_cons, Hv0, IH.
Qed.

Lemma roundtrip_props_put (k : string) (v v' : jsval)
    (props : list (string * jsval)) :
  Forall (fun p => is_Some (JSON_roundtrip p.2)) props ->
  JSON_roundtrip v = Some v' ->
  roundtrip_props (own_put k v props) = own_put k v' (roundtrip_props props).
Proof.
  intros Hs Hv. unfold own_put. rewrite obj_has_roundtrip_props by done.
  destruct (String.eqb k "__proto__" && negb (obj_has k props)); [done|].
  by apply roundtrip_props_set.
Qed.

Lemma obj_set_defined (k : string) (v : jsval)
    (props : list (string * jsval)) :
  Forall (fun p => is_Some (JSON_roundtrip p.2)) props ->
  is_Some (JSON_roundtrip v) ->
  Forall (fun p => is_Some (JSON_roundtrip p.2)) (obj_set k v props).
Proof.
  intros Hs Hv. unfold obj_set. destruct (obj_has k props).
  - induction Hs as [|[k0 v0] props Hv0 Hs IH]; simpl; [done|].
    destruct (String.eqb k k0); by constructor.
  - induction Hs as [|[k0 v0] props Hv0 Hs IH]; simpl.
    + by constructor.
    + destruct (goes_before k k0); by repeat constructor.
Qed.

Lemma own_put_defined (k : string) (v : jsval)
    (props : list (string * jsval)) :
  Forall (fun p => is_Some (JSON_roundtrip p.2)) props ->
  is_Some (JSON_roundtrip v) ->
  Forall (fun p => is_Some (JSON_roundtrip p.2)) (own_put k v props).
Proof.
  intros Hs Hv. unfold own_put.
  destruct (String.eqb k "__proto__" && negb (obj_has k props)); [done|].
  by apply obj_set_defined.
Qed.

Lemma serializable_props_defined (props : list (string * jsval)) :
  serializable (VObj props) = true ->
  Forall (fun p => is_Some (JSON_roundtrip p.2)) props.
Proof.
  simpl. intros Hs. apply Forall_forall. intros [k x] Hin.
  rewrite forallb_forall in Hs. apply list_elem_of_In, Hs in Hin.
  simpl in *. rewrite (JSON_roundtrip_serializable x Hin). by eexists.
Qed.

Lemma roundtrip_props_serializable (props : list (string * jsval)) :
  serializable (VObj props) = true -> roundtrip_props props = props.
Proof.
  intros Hs. apply JSON_roundtrip_serializable in Hs.
  rewrite JSON_roundtrip_VObj in Hs. by simplify_eq.
Qed.

(** What is read back from a text is serializable. *)
Lemma serializable_JSON_roundtrip (v v' : jsval) :
  JSON_roundtrip v = Some v' -> serializable v' = true.
Proof.
  revert v'.
  induction v as [| |b|n|s|elems IH|props IH] using jsval_deep_ind;
    intros v' Hv; simpl in Hv; simplify_eq; try done.
  - by destruct n; simplify_eq.
  - simpl. induction IH as [|e l He _ IHl]; [done|].
    simpl. rewrite IHl, andb_true_r.
    destruct (JSON_roundtrip e) as [e'|] eqn:Hr; [by apply He|done].
  - fold (roundtrip_props props). 
    cut (forallb (fun p => serializable p.2) (roundtrip_props props) = true);
      [done|].
    induction IH as [|[k x] l Hx _ IHl]; [done|].
    rewrite roundtrip_props_cons. simpl in Hx.
    destruct (JSON_roundtrip x) as [x'|] eqn:Hr; [|done].
    simpl. by rewrite (Hx x'), IHl.
Qed.

(** ** The registry *)

Section registry.
Import permanentResourceCache.

Lemma getAll_ok (ls : Storage) :
  registry_ok ls = true ->
  getAll ls = (Ret (VObj (registry_props ls)), ls).
Proof.
  unfold registry_ok, registry_props, getAll. js_unfold.
  destruct (ls !! REGISTRY_KEY) as [[[]|s]|]; try done.
  simpl. by destruct (String.eqb s "").
Qed.

Lemma registry_props_serializable (ls : Storage) :
  registry_ok ls = true -> serializable (VObj (registry_props ls)) = true.
Proof.
  unfold registry_ok, registry_props.
  by destruct (ls !! REGISTRY_KEY) as [[[]|s]|].
Qed.

Lemma stored_entry_eq (address : string) (iconUrl : jsval) :
  JSON_roundtrip (entry address iconUrl)
  = Some (stored_entry address iconUrl).
Proof. done. Qed.

Lemma stored_entry_serializable (address : string) (iconUrl : jsval) :
  serializable iconUrl = true ->
  stored_entry address iconUrl = entry address iconUrl.
Proof.
  intros Hs. unfold stored_entry.
  rewrite JSON_roundtrip_serializable; [done|].
  simpl. unfold js_or. by destruct (truthy iconUrl); rewrite ?Hs.
Qed.

Lemma stored_entry_falsy (address : string) (iconUrl : jsval) :
  truthy iconUrl = false ->
  stored_entry address iconUrl
  = VObj [("address", VStr address); ("iconUrl", VNull)].
Proof. intros Hf. unfold stored_entry, entry, js_or. by rewrite Hf. Qed.

(** The loop of [addMultiple] on an object. *)
Lemma for_of_Put (resources : list resource)
    (props : list (string * jsval)) :
  for_of (fun cache r => Put cache (ticker r) (entry (address r) (iconUrl r)))
    (VObj props) resources
  = Ret (VObj (foldl
                 (fun ps r =>
                    own_put (ticker r) (entry (address r) (iconUrl r)) ps)
                 props resources)).
Proof.
  revert props. induction resources as [|r rs IH]; intros props; [done|].
  cbn [for_of foldl]. simpl. apply IH.
Qed.

Lemma roundtrip_props_merged (resources : list resource)
    (props : list (string * jsval)) :
  Forall (fun p => is_Some (JSON_roundtrip p.2)) props ->
  roundtrip_props
    (foldl (fun ps r => own_put (ticker r) (entry (address r) (iconUrl r)) ps)
       props resources)
  = merged resources (roundtrip_props props).
Proof.
  revert props. induction resources as [|r rs IH]; intros props Hd; [done|].
  cbn [foldl merged]. rewrite IH.
  - unfold merged. f_equal. by apply roundtrip_props_put.
  - apply own_put_defined; [done|]. by eexists.
Qed.

Lemma add_ok (t a : string) (icon : jsval) (ls : Storage) :
  registry_ok ls = true ->
  add t a icon ls
  = (Ret tt,
     <[REGISTRY_KEY :=
         Json (VObj (own_put t (stored_entry a icon) (registry_props ls)))]>
       ls).
Proof.
  intros Hok. unfold add. js_unfold. rewrite (getAll_ok ls Hok).
  unfold JSON_stringify. cbn [Put fst snd].
  rewrite JSON_roundtrip_VObj.
  pose proof (registry_props_serializable ls Hok) as Hs.
  rewrite (roundtrip_props_put t _ (stored_entry a icon));
    [|by apply serializable_props_defined|done].
  by rewrite roundtrip_props_serializable.
Qed.

Lemma addMultiple_ok (resources : list resource) (ls : Storage) :
  registry_ok ls = true ->
  addMultiple resources ls
  = (Ret tt,
     <[REGISTRY_KEY := Json (VObj (merged resources (registry_props ls)))]>
       ls).
Proof.
  intros Hok. unfold addMultiple. js_unfold. rewrite (getAll_ok ls Hok).
  rewrite for_of_Put. unfold JSON_stringify. rewrite JSON_roundtrip_VObj.
  pose proof (registry_props_serializable ls Hok) as Hs.
  rewrite roundtrip_props_merged by (by apply serializable_props_defined).
  by rewrite roundtrip_props_serializable.
Qed.

Lemma get_ok (t : string) (ls : Storage) :
  registry_ok ls = true ->
  get t ls = (Ret (member_or (obj_read t (registry_props ls)) VNull), ls).
Proof.
  intros Hok. unfold get. js_unfold. by rewrite (getAll_ok ls Hok).
Qed.

Lemma registry_props_insert (props : list (string * jsval)) (ls : Storage) :
  registry_props (<[REGISTRY_KEY := Json (VObj props)]> ls) = props.
Proof. unfold registry_props. by rewrite lookup_insert_eq. Qed.

Lemma registry_ok_insert (props : list (string * jsval)) (ls : Storage) :
  serializable (VObj props) = true ->
  registry_ok (<[REGISTRY_KEY := Json (VObj props)]> ls) = true.
Proof. intros Hs. unfold registry_ok. by rewrite lookup_insert_eq. Qed.

Lemma obj_set_serializable (k : string) (v : jsval)
    (props : list (string * jsval)) :
  serializable (VObj props) = true -> serializable v = true ->
  serializable (VObj (obj_set k v props)) = true.
Proof.
  simpl. intros Hs Hv. unfold obj_set. destruct (obj_has k props).
  - induction props as [|[k0 v0] props IH]; simpl in *; [done|].
    apply andb_prop in Hs as [Hs0 Hs].
    destruct (String.eqb k k0); simpl.
    + by rewrite Hv, Hs.
    + by rewrite Hs0, IH.
  - induction props as [|[k0 v0] props IH]; simpl in *.
    + by rewrite Hv.
    + apply andb_prop in Hs as [Hs0 Hs].
      destruct (goes_before k k0); simpl.
      * by rewrite Hv, Hs0, Hs.
      * by rewrite Hs0, IH.
Qed.

Lemma own_put_serializable (k : string) (v : jsval)
    (props : list (string * jsval)) :
  serializable (VObj props) = true -> serializable v = true ->
  serializable (VObj (own_put k v props)) = true.
Proof.
  intros Hs Hv. unfold own_put.
  destruct (String.eqb k "__proto__" && negb (obj_has k props)); [done|].
  by apply obj_set_serializable.
Qed.

Lemma registry_ok_add (t a : string) (icon : jsval) (ls : Storage) :
  registry_ok ls = true -> registry_ok (add t a icon ls).2 = true.
Proof.
  intros Hok. rewrite add_ok by done. cbn [snd].
  apply registry_ok_insert, own_put_serializable.
  - by apply registry_props_serializable.
  - by apply (serializable_JSON_roundtrip (entry a icon)).
Qed.

Lemma registry_ok_clear (ls : Storage) : registry_ok (clear ls).2 = true.
Proof.
  unfold registry_ok, clear. js_unfold. cbn [snd].
  by rewrite lookup_delete_eq.
Qed.

Lemma merged_app (rs1 rs2 : list resource) (props : list (string * jsval)) :
  merged (rs1 ++ rs2) props = merged rs2 (merged rs1 props).
Proof. unfold merged. by rewrite foldl_app. Qed.

Lemma merged_cons (r : resource) (rs : list resource)
    (props : list (string * jsval)) :
  merged (r :: rs) props
  = merged rs
      (own_put (ticker r) (stored_entry (address r) (iconUrl r)) props).
Proof. done. Qed.

(** Resources with another ticker leave what is read under [t] as it is. *)
Lemma obj_read_merged_ne (t : string) (rs : list resource)
    (props : list (string * jsval)) :
  Forall (fun r => ticker r ≠ t) rs ->
  obj_read t (merged rs props) = obj_read t props.
Proof.
  intros Hne. revert props.
  induction Hne as [|r rs Hr _ IH]; intros props; [done|].
  rewrite merged_cons, IH. by apply obj_read_put_ne.
Qed.

(** The last resource with ticker [t] decides what is read under [t]. *)
Lemma obj_read_merged_last (t a : string) (icon : jsval)
    (before after : list resource) (props : list (string * jsval)) :
  t ≠ "__proto__" ->
  Forall (fun r => ticker r ≠ t) after ->
  obj_read t
    (merged (before ++ {| ticker := t; address := a; iconUrl := icon |}
               :: after) props)
  = Value (stored_entry a icon).
Proof.
  intros Ht Hne. rewrite merged_app, merged_cons.
  rewrite obj_read_merged_ne by done. by apply obj_read_put_eq.
Qed.

Lemma stored_entry_is_serializable (a : string) (icon : jsval) :
  serializable (stored_entry a icon) = true.
Proof. by apply (serializable_JSON_roundtrip (entry a icon)). Qed.

Lemma merged_serializable (rs : list resource)
    (props : list (string * jsval)) :
  serializable (VObj props) = true ->
  serializable (VObj (merged rs props)) = true.
Proof.
  revert props. induction rs as [|r rs IH]; intros props Hs; [done|].
  rewrite merged_cons. apply IH, own_put_serializable; [done|].
  apply stored_entry_is_serializable.
Qed.

Lemma registry_ok_addMultiple (rs : list resource) (ls : Storage) :
  registry_ok ls = true -> registry_ok (addMultiple rs ls).2 = true.
Proof.
  intros Hok. rewrite addMultiple_ok by done. cbn [snd].
  apply registry_ok_insert, merged_serializable.
  by apply registry_props_serializable.
Qed.

(** What [get] returns after [add]: the entry under the ticker of the
    [add], unless that ticker is [__proto__]; under every other ticker what
    it returned before. *)
Lemma get_add_eq (t a : string) (icon : jsval) (ls : Storage) :
  registry_ok ls = true -> t ≠ "__proto__" ->
  (get t (add t a icon ls).2).1 = Ret (Value (stored_entry a icon)).
Proof.
  intros Hok Ht. rewrite get_ok by (by apply registry_ok_add).
  rewrite add_ok by done. cbn [fst snd].
  rewrite registry_props_insert, obj_read_put_eq by done.
  cbn [member_or]. unfold js_or, stored_entry. by simpl.
Qed.

Lemma get_add_ne (t t' a : string) (icon : jsval) (ls : Storage) :
  registry_ok ls = true -> t ≠ t' ->
  (get t' (add t a icon ls).2).1 = (get t' ls).1.
Proof.
  intros Hok Ht. rewrite (get_ok t' ls) by done.
  rewrite get_ok by (by apply registry_ok_add).
  rewrite add_ok by done. cbn [fst snd].
  by rewrite registry_props_insert, obj_read_put_ne.
Qed.

Lemma get_addMultiple_last (t a : string) (icon : jsval)
    (before after : list resource) (ls : Storage) :
  registry_ok ls = true -> t ≠ "__proto__" ->
  Forall (fun r => ticker r ≠ t) after ->
  (get t (addMultiple
            (before ++ {| ticker := t; address := a; iconUrl := icon |}
               :: after) ls).2).1
  = Ret (Value (stored_entry a icon)).
Proof.
  intros Hok Ht Hne. rewrite get_ok by (by apply registry_ok_addMultiple).
  rewrite addMultiple_ok by done. cbn [fst snd].
  rewrite registry_props_insert, obj_read_merged_last by done.
  cbn [member_or]. unfold js_or, stored_entry. by simpl.
Qed.

Lemma get_addMultiple_ne (t : string) (rs : list resource) (ls : Storage) :
  registry_ok ls = true ->
  Forall (fun r => ticker r ≠ t) rs ->
  (get t (addMultiple rs ls).2).1 = (get t ls).1.
Proof.
  intros Hok Hne. rewrite (get_ok t ls) by done.
  rewrite get_ok by (by apply registry_ok_addMultiple).
  rewrite addMultiple_ok by done. cbn [fst snd].
  by rewrite registry_props_insert, obj_read_merged_ne.
Qed.
End registry.

(** C7: [add] and [addMultiple] merge into the stored registry, and the last
    write of a ticker wins.  Let [add(t', a', icon')] be followed by
    [add(T, addr, icon)] and then by [addMultiple] of a list whose last
    resource with ticker [T] is [{T, addr2, icon2}] and that names [t'] in
    no resource.  After the second [add], [get(T)] returns the entry
    [{address: addr, iconUrl: icon || null}] and [get(t')] the entry of the
    first [add]; after [addMultiple], [get(T)] returns the entry of the last
    write, [get(t')] still the entry of the first [add], and [get] of every
    ticker that none of the three writes names returns what it returned
    before them.  ([add("XRD", addr, null)] followed by
    [addMultiple([{ticker: "XRD", address: addr2, iconUrl: "x"}])] is the
    case [T = "XRD"].)  The tickers are not [__proto__], the one name under
    which an assignment stores nothing, and the icons are values JSON
    writes as they are. *)
Theorem registry_merge_last_write_wins (ls : Storage)
    (T t' addr addr2 a' : string) (icon icon2 icon' : jsval)
    (before after : list permanentResourceCache.resource) :
  permanentResourceCache.registry_ok ls = true ->
  T ≠ "__proto__" -> t' ≠ "__proto__" -> t' ≠ T ->
  serializable icon = true -> serializable icon2 = true ->
  serializable icon' = true ->
  Forall (fun r => permanentResourceCache.ticker r ≠ T) after ->
  Forall (fun r => permanentResourceCache.ticker r ≠ t') (before ++ after) ->
  let ls0 := (permanentResourceCache.add t' a' icon' ls).2 in
  let ls1 := (permanentResourceCache.add T addr icon ls0).2 in
  let ls2 :=
    (permanentResourceCache.addMultiple
       (before ++ {| permanentResourceCache.ticker := T;
                     permanentResourceCache.address := addr2;
                     permanentResourceCache.iconUrl := icon2 |} :: after)
       ls1).2 in
  (permanentResourceCache.get T ls1).1
  = Ret (Value (VObj [("address", VStr addr);
                      ("iconUrl", js_or icon VNull)]))
  ∧ (permanentResourceCache.get t' ls1).1
    = Ret (Value (VObj [("address", VStr a');
                        ("iconUrl", js_or icon' VNull)]))
  ∧ (permanentResourceCache.get T ls2).1
    = Ret (Value (VObj [("address", VStr addr2);
                        ("iconUrl", js_or icon2 VNull)]))
  ∧ (permanentResourceCache.get t' ls2).1
    = Ret (Value (VObj [("address", VStr a');
                        ("iconUrl", js_or icon' VNull)]))
  ∧ ∀ t : string,
      t ≠ T -> t ≠ t' ->
      Forall (fun r => permanentResourceCache.ticker r ≠ t)
        (before ++ after) ->
      (permanentResourceCache.get t ls2).1
      = (permanentResourceCache.get t ls).1.
Proof.
  intros Hok HT Ht' Hne Hicon Hicon2 Hicon' Hafter Hlist ls0 ls1 ls2.
  assert (permanentResourceCache.registry_ok ls0 = true) as Hok0
    by (by apply registry_ok_add).
  assert (permanentResourceCache.registry_ok ls1 = true) as Hok1
    by (by apply registry_ok_add).
  assert ((permanentResourceCache.get t' ls0).1
          = Ret (Value (permanentResourceCache.entry a' icon'))) as Hfirst.
  { unfold ls0. rewrite get_add_eq by done.
    by rewrite stored_entry_serializable. }
  assert ((permanentResourceCache.get t' ls1).1
          = Ret (Value (permanentResourceCache.entry a' icon'))) as Hkept.
  { unfold ls1. rewrite get_add_ne by done. exact Hfirst. }
  apply Forall_app in Hlist as Hlist'. destruct Hlist' as [Hb Ha].
  split; [|split; [|split; [|split]]].
  - unfold ls1. rewrite get_add_eq by done.
    by rewrite stored_entry_serializable.
  - exact Hkept.
  - unfold ls2. rewrite get_addMultiple_last by done.
    by rewrite stored_entry_serializable.
  - unfold ls2. rewrite get_addMultiple_ne; [exact Hkept|done|].
    apply Forall_app. split; [done|]. by constructor.
  - intros t HtT Htt' Hl. apply Forall_app in Hl as [Hlb Hla].
    unfold ls2. rewrite get_addMultiple_ne; [|done|].
    + unfold ls1. rewrite get_add_ne by done.
      unfold ls0. by rewrite get_add_ne.
    + apply Forall_app. split; [done|]. constructor; [|done].
      simpl. congruence.
Qed.

Lemma registry_merge_last_write_wins_witness :
  let ls : Storage :=
    {[ "hypercave_resource_cache" :=
         Json (VObj [("EARLY", VObj [("address", VStr "resource_early");
                                     ("iconUrl", VNull)])]) ]} in
  let ls1 :=
    (permanentResourceCache.add "XRD" "resource_1" VNull
       (permanentResourceCache.add "HUG" "resource_hug" (VStr "h") ls).2).2 in
  let ls2 :=
    (permanentResourceCache.addMultiple
       [{| permanentResourceCache.ticker := "XRD";
           permanentResourceCache.address := "resource_2";
           permanentResourceCache.iconUrl := VStr "x" |}] ls1).2 in
  permanentResourceCache.registry_ok ls = true
  ∧ (permanentResourceCache.get "XRD" ls1).1
    = Ret (Value (VObj [("address", VStr "resource_1"); ("iconUrl", VNull)]))
  ∧ (permanentResourceCache.get "XRD" ls2).1
    = Ret (Value (VObj [("address", VStr "resource_2"); ("iconUrl", VStr "x")]))
  ∧ (permanentResourceCache.get "HUG" ls2).1
    = Ret (Value (VObj [("address", VStr "resource_hug");
                        ("iconUrl", VStr "h")]))
  ∧ (permanentResourceCache.get "EARLY" ls2).1
    = (permanentResourceCache.get "EARLY" ls).1.
Proof.
  intros ls ls1 ls2.
  pose proof (registry_merge_last_write_wins ls "XRD" "HUG" "resource_1"
                "resource_2" "resource_hug" VNull (VStr "x") (VStr "h")
                [] [] eq_refl) as H.
  destruct H as (Hadd & _ & Hlast & Hkept & Hother);
    [discriminate | discriminate | discriminate
    | reflexivity | reflexivity | reflexivity
    | constructor | constructor |].
  split; [reflexivity|]. split; [exact Hadd|]. split; [exact Hlast|].
  split; [exact Hkept|].
  apply Hother; [discriminate | discriminate | constructor].
Defined.

(** C10, as the code has it: a falsy [iconUrl] (null, undefined, the empty
    string, ...) is stored as [null].  For a ticker other than [__proto__]:
    after [add(ticker, address, iconUrl)], and after [addMultiple(resources)]
    when the resource is the last one of the list with its ticker,
    [get(ticker)] returns the address with [iconUrl: null]. *)
Theorem falsy_iconUrl_is_stored_as_null (ls : Storage) (t a : string)
    (icon : jsval) (before after : list permanentResourceCache.resource) :
  permanentResourceCache.registry_ok ls = true ->
  t ≠ "__proto__" ->
  truthy icon = false ->
  Forall (fun r => permanentResourceCache.ticker r ≠ t) after ->
  let r := {| permanentResourceCache.ticker := t;
              permanentResourceCache.address := a;
              permanentResourceCache.iconUrl := icon |} in
  (permanentResourceCache.get t (permanentResourceCache.add t a icon ls).2).1
  = Ret (Value (VObj [("address", VStr a); ("iconUrl", VNull)]))
  ∧ (permanentResourceCache.get t
       (permanentResourceCache.addMultiple (before ++ r :: after) ls).2).1
    = Ret (Value (VObj [("address", VStr a); ("iconUrl", VNull)])).
Proof.
  intros Hok Ht Hfalsy Hlast r. split.
  - rewrite get_add_eq by done. by rewrite stored_entry_falsy.
  - unfold r. rewrite get_addMultiple_last by done.
    by rewrite stored_entry_falsy.
Qed.

Lemma falsy_iconUrl_is_stored_as_null_witness :
  let r1 := {| permanentResourceCache.ticker := "HUG";
               permanentResourceCache.address := "resource_hug";
               permanentResourceCache.iconUrl := VStr "h" |} in
  let r2 := {| permanentResourceCache.ticker := "XRD";
               permanentResourceCache.address := "resource_xrd";
               permanentResourceCache.iconUrl := VStr "" |} in
  (permanentResourceCache.get "XRD"
     (permanentResourceCache.add "XRD" "resource_xrd" (VStr "") ∅).2).1
  = Ret (Value (VObj [("address", VStr "resource_xrd"); ("iconUrl", VNull)]))
  ∧ (permanentResourceCache.get "XRD"
       (permanentResourceCache.addMultiple [r1; r2; r1] ∅).2).1
    = Ret (Value (VObj [("address", VStr "resource_xrd"); ("iconUrl", VNull)])).
Proof.
  intros r1 r2.
  apply (falsy_iconUrl_is_stored_as_null ∅ "XRD" "resource_xrd" (VStr "")
           [r1] [r1]).
  - reflexivity.
  - discriminate.
  - reflexivity.
  - repeat constructor. discriminate.
Defined.

(** C10 as stated fails for [addMultiple]: when a later resource of the same
    call has the same ticker, its icon is the one that is stored. *)
Lemma falsy_iconUrl_overwritten_in_same_call :
  ¬ (∀ (ls : Storage) (rs : list permanentResourceCache.resource)
       (r : permanentResourceCache.resource),
       permanentResourceCache.registry_ok ls = true ->
       r ∈ rs ->
       truthy (permanentResourceCache.iconUrl r) = false ->
       ∃ e : jsval,
         (permanentResourceCache.get (permanentResourceCache.ticker r)
            (permanentResourceCache.addMultiple rs ls).2).1
         = Ret (Value e)
         ∧ Get e "iconUrl" = Ret (Value VNull)).
Proof.
  intros H.
  destruct (H ∅
    [ {| permanentResourceCache.ticker := "XRD";
         permanentResourceCache.address := "resource_1";
         permanentResourceCache.iconUrl := VStr "" |};
      {| permanentResourceCache.ticker := "XRD";
         permanentResourceCache.address := "resource_2";
         permanentResourceCache.iconUrl := VStr "x" |} ]
    {| permanentResourceCache.ticker := "XRD";
       permanentResourceCache.address := "resource_1";
       permanentResourceCache.iconUrl := VStr "" |})
    as (e & He & Hicon).
  - reflexivity.
  - left.
  - reflexivity.
  - vm_compute in He. injection He as <-. discriminate Hicon.
Qed.

(** ** Strings, lines and [trim] *)

#[local] Arguments String.append !_ _ / : simpl nomatch.

Lemma string_app_assoc (a b c : string) : (a +:+ b) +:+ c = a +:+ b +:+ c.
Proof. induction a as [|x a IH]; [done|]. cbn [String.append]. by f_equal. Qed.

Lemma string_app_nil_r (a : string) : a +:+ "" = a.
Proof. induction a as [|x a IH]; [done|]. cbn [String.append]. by f_equal. Qed.

Lemma concat_cons (sep x : string) (l : list string) :
  l ≠ [] -> String.concat sep (x :: l) = x +:+ sep +:+ String.concat sep l.
Proof. by destruct l. Qed.

Lemma concat_app (sep : string) (a b : list string) :
  a ≠ [] -> b ≠ [] ->
  String.concat sep (a ++ b)
  = String.concat sep a +:+ sep +:+ String.concat sep b.
Proof.
  intros Ha Hb. induction a as [|x a IH]; [done|].
  destruct a as [|y a].
  - simpl. by destruct b.
  - rewrite <- app_comm_cons, concat_cons by done.
    rewrite IH by done. rewrite (concat_cons _ x (y :: a)) by done.
    by rewrite ?string_app_assoc.
Qed.

(** Two template literals that end and begin with a line feed, put one
    after the other. *)
Lemma template_glue (a b : list string) :
  a ≠ [] -> b ≠ [] ->
  template (a ++ [""]) +:+ template ("" :: b) = template (a ++ "" :: b).
Proof.
  intros Ha Hb. unfold template.
  rewrite (concat_app nl a [""]), (concat_app nl a ("" :: b)) by done.
  rewrite (concat_cons nl "" b) by done.
  simpl. by rewrite !string_app_assoc.
Qed.

Lemma trimEnd_terminator (s : string) :
  trimEnd (s +:+ ";" +:+ nl) = s +:+ ";".
Proof.
  induction s as [|c s IH]; [done|].
  cbn [String.append trimEnd].
  change (String ";" nl) with (";" +:+ nl). rewrite IH. by destruct s.
Qed.

(** [trim] takes the first and the last line feed of a template literal
    that starts with a black character on its second line and ends with the
    statement terminator. *)
Lemma trim_template (c : ascii) (s : string) (body : list string) :
  is_white_space c = false ->
  trim (template ("" :: String c s :: body ++ [";"; ""]))
  = template (String c s :: body ++ [";"]).
Proof.
  intros Hc. unfold trim, template.
  rewrite (concat_cons nl "") by done.
  change (trimStart ("" +:+ nl +:+ ?t)) with (trimStart t).
  rewrite !app_comm_cons, !concat_app by done.
  change (String.concat nl [";"; ""]) with (";" +:+ nl).
  change (String.concat nl [";"]) with ";".
  remember (String.concat nl (String c s :: body)) as t eqn:Ht.
  assert (∃ t', t = String c t') as [t' Ht'].
  { rewrite Ht. destruct body; simpl; eauto. }
  rewrite Ht'. cbn [String.append trimStart]. rewrite Hc.
  rewrite <- !string_app_assoc.
  change (String c ((t' +:+ nl) +:+ String ";" nl))
    with (String c (t' +:+ nl) +:+ ";" +:+ nl).
  by rewrite trimEnd_terminator.
Qed.

Lemma strip_terminator_Some (lines body : list string) :
  strip_terminator lines = Some body -> lines = body ++ [";"; ""].
Proof.
  revert body. induction lines as [|x rest IH]; intros body; [done|].
  cbn [strip_terminator]. destruct rest as [|y [|z rest]].
  - simpl. done.
  - destruct (String.eqb_spec x ";") as [->|]; [|done].
    destruct (String.eqb_spec y "") as [->|]; [|done].
    simpl. by intros [= <-].
  - destruct (strip_terminator (y :: z :: rest)) as [body'|] eqn:Hs; [|done].
    simpl. intros [= <-]. by rewrite (IH body').
Qed.

Lemma trim_template_lines (c : ascii) (s : string) (rest body : list string) :
  is_white_space c = false ->
  strip_terminator rest = Some body ->
  trim (template ("" :: String c s :: rest))
  = template (String c s :: body ++ [";"]).
Proof.
  intros Hc Hs. rewrite (strip_terminator_Some _ _ Hs).
  by apply trim_template.
Qed.

Lemma instruction_lines_nonempty (i : instruction) : instruction_lines i ≠ [].
Proof. by destruct i. Qed.

Lemma manifest_lines_nonempty (l : list instruction) :
  l ≠ [] -> manifest_lines l ≠ [].
Proof.
  destruct l as [|i [|j l]]; [done|..]; intros _; simpl.
  - apply instruction_lines_nonempty.
  - pose proof (instruction_lines_nonempty i). by destruct (instruction_lines i).
Qed.

Lemma manifest_lines_cons (i : instruction) (l : list instruction) :
  l ≠ [] ->
  manifest_lines (i :: l) = instruction_lines i ++ "" :: manifest_lines l.
Proof. by destruct l. Qed.

Lemma manifest_lines_app (l1 l2 : list instruction) :
  l1 ≠ [] -> l2 ≠ [] ->
  manifest_lines (l1 ++ l2) = manifest_lines l1 ++ "" :: manifest_lines l2.
Proof.
  intros H1 H2. induction l1 as [|i l1 IH]; [done|].
  destruct l1 as [|j l1].
  - simpl app. by rewrite manifest_lines_cons.
  - rewrite <- app_comm_cons, manifest_lines_cons by done.
    rewrite IH by done. rewrite (manifest_lines_cons i (j :: l1)) by done.
    by rewrite <- app_assoc.
Qed.

(** The text of a manifest is the template of its lines. *)
Lemma render_manifest_lines (l : list instruction) :
  render_manifest l = template (manifest_lines l).
Proof.
  unfold render_manifest, template.
  induction l as [|i l IH]; [done|].
  destruct l as [|j l]; [done|].
  change (map render_instruction (i :: j :: l))
    with (render_instruction i :: map render_instruction (j :: l)).
  rewrite concat_cons by (cbn [map]; congruence).
  rewrite IH, (manifest_lines_cons i (j :: l)) by done.
  rewrite concat_app, (concat_cons nl "");
    [|by apply manifest_lines_nonempty|apply instruction_lines_nonempty|done].
  unfold render_instruction. simpl. by rewrite ?string_app_assoc.
Qed.

(** ** The manifests *)

(** Both sides of an equation between texts, brought to one shape: appends
    nested to the right, literals pushed through. *)
Ltac string_norm :=
  unfold quoted, join;
  repeat (rewrite ?string_app_assoc; cbn [String.append String.concat]).

(** ** Reading a manifest back from its text *)

(** A string without [c], followed by [c], is read back up to that [c]. *)
Lemma split_at_char (c : ascii) (a a' r r' : string) :
  has_char c a = false -> has_char c a' = false ->
  a +:+ String c r = a' +:+ String c r' -> a = a' ∧ r = r'.
Proof.
  revert a'. induction a as [|x a IH]; intros [|x' a'] Ha Ha' H;
    cbn [String.append has_char] in *.
  - by simplify_eq.
  - simplify_eq. by rewrite Ascii.eqb_refl in Ha'.
  - simplify_eq. by rewrite Ascii.eqb_refl in Ha.
  - apply orb_false_iff in Ha as [_ Ha], Ha' as [_ Ha'].
    injection H as -> H. by destruct (IH a' Ha Ha' H) as [-> ->].
Qed.

Lemma quoted_delimited (a a' r r' : string) :
  quote_free a = true -> quote_free a' = true ->
  quoted a +:+ r = quoted a' +:+ r' -> a = a' ∧ r = r'.
Proof.
  unfold quote_free, quoted, dq. intros Ha Ha'.
  apply negb_true_iff in Ha, Ha'.
  rewrite !string_app_assoc. cbn [String.append]. intros H.
  injection H as H. by apply (split_at_char "034").
Qed.

Lemma string_app_inv_head (p x y : string) : p +:+ x = p +:+ y -> x = y.
Proof.
  induction p as [|c p IH]; cbn [String.append]; [done|].
  intros H. injection H as H. by apply IH.
Qed.

(** The text of an argument does not start with a closing parenthesis. *)
Lemma render_value_head (v : mvalue) (r : string) :
  ∃ c s, render_value v +:+ r = String c s ∧ c ≠ ")"%char.
Proof.
  destruct v; cbn [render_value]; unfold quoted, dq;
    rewrite ?string_app_assoc; cbn [String.append]; by eexists _, _.
Qed.

Lemma concat_cons_app (sep x : string) (l : list string) (r : string) :
  String.concat sep (x :: l) +:+ r
  = x +:+ match l with
          | [] => r
          | _ :: _ => sep +:+ String.concat sep l +:+ r
          end.
Proof.
  destruct l as [|y l]; [done|].
  rewrite concat_cons by done. by rewrite !string_app_assoc.
Qed.

Lemma elements_delimited (elems : list mvalue) :
  Forall delimited elems ->
  forallb quote_free_value elems = true ->
  ∀ (elems' : list mvalue) (r r' : string),
    forallb quote_free_value elems' = true ->
    String.concat ", " (map render_value elems) +:+ ")" +:+ r
    = String.concat ", " (map render_value elems') +:+ ")" +:+ r' ->
    elems = elems' ∧ r = r'.
Proof.
  intros Hall. induction Hall as [|e rest He Hrest IH];
    intros Hwf [|e' rest'] r r' Hwf' H.
  - cbn in H. by simplify_eq.
  - exfalso. cbn [map] in H. rewrite concat_cons_app in H.
    destruct (render_value_head e'
                match map render_value rest' with
                | [] => ")" +:+ r'
                | _ :: _ => ", " +:+ String.concat ", " (map render_value rest')
                              +:+ ")" +:+ r'
                end) as (c & s & Hs & Hc).
    rewrite Hs in H. cbn in H. congruence.
  - exfalso. cbn [map] in H. rewrite concat_cons_app in H.
    destruct (render_value_head e
                match map render_value rest with
                | [] => ")" +:+ r
                | _ :: _ => ", " +:+ String.concat ", " (map render_value rest)
                              +:+ ")" +:+ r
                end) as (c & s & Hs & Hc).
    rewrite Hs in H. cbn in H. congruence.
  - cbn [map forallb] in *. apply andb_prop in Hwf as [Hwe Hwr].
    apply andb_prop in Hwf' as [Hwe' Hwr'].
    rewrite !concat_cons_app in H.
    apply (He Hwe e' _ _ Hwe') in H as [<- H].
    destruct rest as [|x rest], rest' as [|x' rest']; cbn [map] in H.
    + cbn in H. by simplify_eq.
    + cbn in H. discriminate.
    + cbn in H. discriminate.
    + apply (string_app_inv_head ", ") in H.
      by destruct (IH Hwr (x' :: rest') r r' Hwr' H) as [-> ->].
Qed.

(** An equation between two texts, brought to the shape where the literal
    characters at the front of both sides are compared and stripped. *)
Ltac strip_literal H :=
  unfold quoted, dq, nl in H;
  repeat first
    [ discriminate H
    | progress (rewrite ?string_app_assoc in H; cbn [String.append] in H)
    | injection H as H ].

Lemma render_value_delimited (v : mvalue) : delimited v.
Proof.
  induction v as [a|d|s|name|name|id|e|elems IH|type elems IH]
    using mvalue_deep_ind;
    intros Hwf v' r r' Hwf' H; destruct v'; cbn [render_value] in H;
    cbn [quote_free_value] in Hwf, Hwf'.
  all: strip_literal H.
  all: try (apply (split_at_char "034") in H as [<- H];
            [by simplify_eq
            |by apply negb_true_iff in Hwf
            |by apply negb_true_iff in Hwf']).
  - apply elements_delimited in H as [<- <-]; done.
  - apply andb_prop in Hwf as [Hty Hwf], Hwf' as [Hty' Hwf'].
    apply negb_true_iff in Hty, Hty'.
    apply (split_at_char ">") in H as [<- H]; [|done..].
    injection H as H.
    apply elements_delimited in H as [<- <-]; done.
Qed.

(** The argument lines of a statement, up to its terminator. *)
Lemma arguments_delimited (args : list mvalue) :
  forallb quote_free_value args = true ->
  ∀ (args' : list mvalue) (r r' : string),
    forallb quote_free_value args' = true ->
    String.concat nl (map (fun v => "  " +:+ render_value v) args ++ [";"])
      +:+ r
    = String.concat nl (map (fun v => "  " +:+ render_value v) args' ++ [";"])
        +:+ r' ->
    args = args' ∧ r = r'.
Proof.
  induction args as [|v args IH]; intros Hwf [|v' args'] r r' Hwf' H;
    cbn [map app] in H.
  - cbn in H. by simplify_eq.
  - rewrite !concat_cons_app in H. exfalso. strip_literal H.
  - rewrite !concat_cons_app in H. exfalso. strip_literal H.
  - cbn [forallb] in *. apply andb_prop in Hwf as [Hv Hwf].
    apply andb_prop in Hwf' as [Hv' Hwf'].
    assert (∀ l : list mvalue,
              map (fun v => "  " +:+ render_value v) l ++ [";"] ≠ [])
      as Hne by (by intros []).
    rewrite !concat_cons in H by apply Hne.
    rewrite !string_app_assoc in H. apply (string_app_inv_head "  ") in H.
    apply render_value_delimited in H as [<- H]; [|done..].
    apply (string_app_inv_head nl) in H.
    by destruct (IH Hwf args' r r' Hwf' H) as [-> ->].
Qed.

Lemma render_instruction_delimited (i i' : instruction) (r r' : string) :
  quote_free_instruction i = true -> quote_free_instruction i' = true ->
  render_instruction i +:+ r = render_instruction i' +:+ r' ->
  i = i' ∧ r = r'.
Proof.
  intros Hwf Hwf' H. unfold render_instruction in H.
  assert (∀ l : list mvalue,
            map (fun v => "  " +:+ render_value v) l ++ [";"] ≠ [])
    as Hne by (by intros []).
  destruct i as [a m args|p|res amt b], i' as [a' m' args'|p'|res' amt' b'];
    cbn [instruction_lines render_value app] in H;
    cbn [quote_free_instruction] in Hwf, Hwf';
    rewrite !concat_cons in H by (apply Hne || discriminate);
    try (exfalso; by strip_literal H).
  - apply andb_prop in Hwf as [Hwf Hargs], Hwf' as [Hwf' Hargs'].
    apply andb_prop in Hwf as [Ha Hm], Hwf' as [Ha' Hm'].
    rewrite !string_app_assoc in H.
    apply (string_app_inv_head "CALL_METHOD") in H.
    apply (string_app_inv_head nl) in H.
    apply (string_app_inv_head "  Address(") in H.
    apply quoted_delimited in H as [<- H]; [|done..].
    apply (string_app_inv_head ")") in H.
    apply (string_app_inv_head nl) in H.
    apply (string_app_inv_head "  ") in H.
    apply quoted_delimited in H as [<- H]; [|done..].
    apply (string_app_inv_head nl) in H.
    by apply arguments_delimited in H as [<- <-].
  - apply negb_true_iff in Hwf, Hwf'.
    strip_literal H.
    apply (split_at_char "034") in H as [<- H]; [|done..].
    strip_literal H. by simplify_eq.
  - apply andb_prop in Hwf as [Hwf Hb], Hwf' as [Hwf' Hb'].
    apply andb_prop in Hwf as [Hres Hamt], Hwf' as [Hres' Hamt'].
    apply negb_true_iff in Hres, Hres', Hamt, Hamt', Hb, Hb'.
    strip_literal H.
    apply (split_at_char "034") in H as [<- H]; [|done..].
    strip_literal H.
    apply (split_at_char "034") in H as [<- H]; [|done..].
    strip_literal H.
    apply (split_at_char "034") in H as [<- H]; [|done..].
    strip_literal H. by simplify_eq.
Qed.

Lemma render_instruction_head (i : instruction) (r : string) :
  ∃ c s, render_instruction i +:+ r = String c s.
Proof.
  destruct i; unfold render_instruction; cbn [instruction_lines app];
    rewrite concat_cons_app; cbn [String.append]; by eexists _, _.
Qed.

(** Among the manifests without a double quote in a string, and without [>]
    in a type name, a text is the text of one manifest at most. *)
Lemma render_manifest_inj (l l' : list instruction) :
  quote_free_manifest l = true -> quote_free_manifest l' = true ->
  render_manifest l = render_manifest l' -> l = l'.
Proof.
  unfold quote_free_manifest, render_manifest. revert l'.
  induction l as [|i l IH]; intros [|i' l'] Hwf Hwf' H; cbn [map] in H.
  - done.
  - exfalso. rewrite <- (string_app_nil_r (String.concat _ (_ :: _))) in H.
    rewrite concat_cons_app in H.
    destruct (render_instruction_head i'
                match map render_instruction l' with
                | [] => ""
                | _ :: _ => (nl +:+ nl)
                            +:+ String.concat (nl +:+ nl)
                                  (map render_instruction l') +:+ ""
                end) as (c & s & Hs).
    rewrite Hs in H. discriminate.
  - exfalso. rewrite <- (string_app_nil_r (String.concat _ (_ :: _))) in H.
    rewrite concat_cons_app in H.
    destruct (render_instruction_head i
                match map render_instruction l with
                | [] => ""
                | _ :: _ => (nl +:+ nl)
                            +:+ String.concat (nl +:+ nl)
                                  (map render_instruction l) +:+ ""
                end) as (c & s & Hs).
    rewrite Hs in H. discriminate.
  - cbn [forallb] in Hwf, Hwf'.
    apply andb_prop in Hwf as [Hi Hwf], Hwf' as [Hi' Hwf'].
    rewrite <- (string_app_nil_r (String.concat _ (render_instruction i :: _))),
      <- (string_app_nil_r (String.concat _ (render_instruction i' :: _))) in H.
    rewrite !concat_cons_app in H.
    apply render_instruction_delimited in H as [<- H]; [|done..].
    destruct l as [|x l], l' as [|x' l']; cbn [map] in H.
    + done.
    + discriminate.
    + discriminate.
    + apply (string_app_inv_head (nl +:+ nl)) in H.
      rewrite !string_app_nil_r in H.
      by rewrite (IH (x' :: l') Hwf Hwf' H).
Qed.

(** ** The manifests of the builders are read back *)

Lemma has_char_app (c : ascii) (a b : string) :
  has_char c (a +:+ b) = has_char c a || has_char c b.
Proof.
  induction a as [|x a IH]; cbn [String.append has_char]; [done|].
  by rewrite IH, orb_assoc.
Qed.

Lemma has_char_pretty_N_go (c : ascii) (x : N) (s : string) :
  (∀ d : N, pretty_N_char d ≠ c) ->
  has_char c s = false -> has_char c (pretty_N_go x s) = false.
Proof.
  intros Hc. revert s. induction (N.lt_wf_0 x) as [x _ IH]; intros s Hs.
  assert (x = 0 ∨ 0 < x)%N as [->|Hx] by lia.
  - by rewrite pretty_N_go_0.
  - rewrite pretty_N_go_step by done. apply IH.
    { by apply N.div_lt. }
    cbn [has_char]. rewrite Hs, orb_false_r.
    apply Ascii.eqb_neq. intros ->. by eapply Hc.
Qed.

Lemma quote_free_pretty (index : nat) : quote_free (pretty index) = true.
Proof.
  unfold quote_free, pretty, pretty_nat, pretty, pretty_N.
  apply negb_true_iff. case_decide; [done|].
  apply has_char_pretty_N_go; [|done].
  intros d. unfold pretty_N_char. by repeat case_match.
Qed.

Lemma quote_free_bucket_name (index : nat) :
  quote_free (bucket_name index) = true.
Proof.
  unfold bucket_name, quote_free. rewrite has_char_app.
  pose proof (quote_free_pretty index) as H. unfold quote_free in H.
  apply negb_true_iff in H. by rewrite H.
Qed.

Lemma quote_free_manifest_app (l1 l2 : list instruction) :
  quote_free_manifest (l1 ++ l2)
  = quote_free_manifest l1 && quote_free_manifest l2.
Proof. apply forallb_app. Qed.

Lemma quote_free_proof_preamble (accountAddress nftCollection nftId : string) :
  quote_free accountAddress = true -> quote_free nftCollection = true ->
  quote_free nftId = true ->
  quote_free_manifest (proof_preamble accountAddress nftCollection nftId)
  = true.
Proof. intros Ha Hc Hi. cbn. by rewrite Ha, Hc, Hi. Qed.

Lemma forallb_map_ext {A B} (f : B -> bool) (g : A -> B) (h : A -> bool)
    (l : list A) :
  (∀ x, f (g x) = h x) -> forallb f (map g l) = forallb h l.
Proof.
  intros Hfg. induction l as [|x l IH]; [done|].
  cbn [map forallb]. by rewrite Hfg, IH.
Qed.

Lemma quote_free_query_manifest
    (component accountAddress nftCollection nftId : string)
    (resourceAddresses : list string) :
  quote_free component = true -> quote_free accountAddress = true ->
  quote_free nftCollection = true -> quote_free nftId = true ->
  forallb quote_free resourceAddresses = true ->
  quote_free_manifest
    (query_manifest component accountAddress nftCollection nftId
       resourceAddresses) = true.
Proof.
  intros Hk Ha Hc Hi Hrs. unfold query_manifest.
  rewrite quote_free_manifest_app, quote_free_proof_preamble by done.
  cbn [quote_free_manifest forallb quote_free_instruction quote_free_value
       has_char Ascii.eqb Bool.eqb orb negb andb].
  rewrite Hk, (forallb_map_ext _ _ quote_free) by done.
  by rewrite Hrs.
Qed.

Lemma quote_free_withdraw_manifest
    (component accountAddress nftCollection nftId : string)
    (withdrawals : list Resource) :
  quote_free component = true -> quote_free accountAddress = true ->
  quote_free nftCollection = true -> quote_free nftId = true ->
  forallb quote_free_resource withdrawals = true ->
  quote_free_manifest
    (withdraw_manifest component accountAddress nftCollection nftId
       withdrawals) = true.
Proof.
  intros Hk Ha Hc Hi Hrs. unfold withdraw_manifest.
  rewrite quote_free_manifest_app, quote_free_proof_preamble by done.
  cbn [quote_free_manifest forallb quote_free_instruction quote_free_value
       has_char Ascii.eqb Bool.eqb orb negb andb].
  rewrite Hk, Ha, (forallb_map_ext _ _ quote_free_resource).
  - by rewrite Hrs.
  - intros w. cbn. unfold quote_free_resource. by rewrite andb_true_r.
Qed.

Lemma quote_free_withdraw_and_take (accountAddress : string)
    (resources : list Resource) (index : nat) :
  quote_free accountAddress = true ->
  forallb quote_free_resource resources = true ->
  quote_free_manifest
    (mjoin (imap (fun i r => withdraw_and_take accountAddress (index + i) r)
              resources)) = true.
Proof.
  intros Ha. revert index.
  induction resources as [|r rs IH]; intros index Hrs; [done|].
  cbn [forallb] in Hrs. apply andb_prop in Hrs as [Hr Hrs].
  unfold quote_free_resource in Hr. apply andb_prop in Hr as [Hra Hrm].
  cbn [imap mjoin list_join]. rewrite quote_free_manifest_app.
  apply andb_true_intro. split.
  - unfold withdraw_and_take.
    cbn [quote_free_manifest forallb quote_free_instruction
         quote_free_value].
    rewrite Ha, Hra, Hrm, Nat.add_0_r, quote_free_bucket_name. reflexivity.
  - unfold compose. erewrite imap_ext; [by apply (IH (S index))|].
    intros i x _. simpl. f_equal. lia.
Qed.

Lemma quote_free_buckets (resources : list Resource) (index : nat) :
  forallb quote_free_value
    (imap (fun i _ => MBucket (bucket_name (index + i))) resources) = true.
Proof.
  revert index. induction resources as [|r rs IH]; intros index; [done|].
  cbn [imap forallb quote_free_value].
  rewrite quote_free_bucket_name. cbn [andb].
  unfold compose. erewrite imap_ext; [by apply (IH (S index))|].
  intros i x _. simpl. do 2 f_equal. lia.
Qed.

Lemma quote_free_deposit_manifest
    (component accountAddress nftCollection nftId : string)
    (resources : list Resource) :
  quote_free component = true -> quote_free accountAddress = true ->
  quote_free nftCollection = true -> quote_free nftId = true ->
  forallb quote_free_resource resources = true ->
  quote_free_manifest
    (deposit_manifest component accountAddress nftCollection nftId
       resources) = true.
Proof.
  intros Hk Ha Hc Hi Hrs. unfold deposit_manifest.
  assert (quote_free_manifest
            (mjoin (imap (withdraw_and_take accountAddress) resources))
          = true) as Hw
    by exact (quote_free_withdraw_and_take accountAddress resources 0 Ha Hrs).
  assert (forallb quote_free_value
            (imap (fun index _ => MBucket (bucket_name index)) resources)
          = true) as Hb by exact (quote_free_buckets resources 0).
  rewrite !quote_free_manifest_app, quote_free_proof_preamble, Hw by done.
  cbn [quote_free_manifest forallb quote_free_instruction quote_free_value].
  rewrite Hk, Hb. reflexivity.
Qed.

Lemma buildLookCaveManifest_render (CONFIG : Config)
    (accountAddress nftCollection nftId : string)
    (resourceAddresses : list string) :
  buildLookCaveManifest CONFIG accountAddress nftCollection nftId
    resourceAddresses
  = render_manifest
      (query_manifest (componentAddress CONFIG) accountAddress nftCollection
         nftId resourceAddresses).
Proof.
  unfold buildLookCaveManifest.
  erewrite trim_template_lines by reflexivity.
  rewrite render_manifest_lines.
  cbn [query_manifest proof_preamble app manifest_lines instruction_lines
       map render_value].
  rewrite map_map. string_norm. reflexivity.
Qed.

(** C5, as the code has it: when no string given to the builder holds a
    double quote, the query manifest is the text of the proof-creation
    preamble followed by one call of [query_balances] with the proof and the
    addresses in input order, and of no other manifest; none of its
    statements withdraws, deposits or takes. *)
Theorem buildLookCaveManifest_is_query_manifest (CONFIG : Config)
    (accountAddress nftCollection nftId : string)
    (resourceAddresses : list string) :
  quote_free (componentAddress CONFIG) = true ->
  quote_free accountAddress = true ->
  quote_free nftCollection = true ->
  quote_free nftId = true ->
  forallb quote_free resourceAddresses = true ->
  let text :=
    buildLookCaveManifest CONFIG accountAddress nftCollection nftId
      resourceAddresses in
  let statements :=
    proof_preamble accountAddress nftCollection nftId
    ++ [ CALL_METHOD (componentAddress CONFIG) "query_balances"
           [MProof "nft_proof";
            MArray "Address" (map MAddress resourceAddresses)] ] in
  text = render_manifest statements
  ∧ quote_free_manifest statements = true
  ∧ (∀ l : list instruction,
       quote_free_manifest l = true -> render_manifest l = text ->
       l = statements)
  ∧ Forall (fun i => is_withdraw_deposit_or_take i = false) statements.
Proof.
  intros Hk Ha Hc Hi Hrs text statements.
  assert (text = render_manifest statements) as Htext
    by apply buildLookCaveManifest_render.
  assert (quote_free_manifest statements = true) as Hfree
    by (by apply quote_free_query_manifest).
  split; [done|]. split; [done|]. split.
  - intros l Hl Hrender. apply render_manifest_inj; [done..|].
    by rewrite Hrender.
  - repeat constructor.
Qed.

Lemma buildLookCaveManifest_is_query_manifest_witness :
  let text :=
    buildLookCaveManifest {| componentAddress := "component" |} "account"
      "collection" "#1#" ["A"; "B"] in
  let statements :=
    [ CALL_METHOD "account" "create_proof_of_non_fungibles"
        [MAddress "collection";
         MArray "NonFungibleLocalId" [MNonFungibleLocalId "#1#"]];
      POP_FROM_AUTH_ZONE "nft_proof";
      CALL_METHOD "component" "query_balances"
        [MProof "nft_proof"; MArray "Address" [MAddress "A"; MAddress "B"]] ] in
  text = render_manifest statements
  ∧ quote_free_manifest statements = true
  ∧ (∀ l : list instruction,
       quote_free_manifest l = true -> render_manifest l = text ->
       l = statements)
  ∧ Forall (fun i => is_withdraw_deposit_or_take i = false) statements.
Proof.
  apply (buildLookCaveManifest_is_query_manifest
           {| componentAddress := "component" |} "account" "collection"
           "#1#" ["A"; "B"]); reflexivity.
Defined.

(** C5 as stated fails where a string holds double quotes: an address can
    close its literal and the statement, and bring a withdrawal into the
    manifest. *)
Lemma buildLookCaveManifest_address_brings_withdrawal :
  let address :=
    String.concat nl
      [ "A" +:+ dq +:+ "))"; ";"; "";
        "CALL_METHOD";
        "  Address(" +:+ dq +:+ "victim" +:+ dq +:+ ")";
        "  " +:+ dq +:+ "withdraw" +:+ dq;
        "  Address(" +:+ dq +:+ "resource" +:+ dq +:+ ")";
        "  Decimal(" +:+ dq +:+ "1" +:+ dq +:+ ")"; ";"; "";
        "CALL_METHOD";
        "  Address(" +:+ dq +:+ "component" +:+ dq +:+ ")";
        "  " +:+ dq +:+ "query_balances" +:+ dq;
        "  Array<Address>(Address(" +:+ dq +:+ "B" ] in
  let statements :=
    [ CALL_METHOD "account" "create_proof_of_non_fungibles"
        [MAddress "collection";
         MArray "NonFungibleLocalId" [MNonFungibleLocalId "#1#"]];
      POP_FROM_AUTH_ZONE "nft_proof";
      CALL_METHOD "component" "query_balances"
        [MProof "nft_proof"; MArray "Address" [MAddress "A"]];
      CALL_METHOD "victim" "withdraw"
        [MAddress "resource"; MDecimal "1"];
      CALL_METHOD "component" "query_balances"
        [MArray "Address" [MAddress "B"]] ] in
  buildLookCaveManifest {| componentAddress := "component" |} "account"
    "collection" "#1#" [address]
  = render_manifest statements
  ∧ quote_free_manifest statements = true
  ∧ existsb is_withdraw_deposit_or_take statements = true.
Proof. intros address statements. by vm_compute. Qed.

Lemma render_withdrawal_tuple (w : Resource) :
  render_value (MTuple [MAddress (resourceAddress w); MDecimal (amount w)])
  = "Tuple(Address(" +:+ quoted (resourceAddress w)
      +:+ "), Decimal(" +:+ quoted (amount w) +:+ "))".
Proof. cbn [render_value map]. string_norm. reflexivity. Qed.

Lemma buildOutCaveManifest_render (CONFIG : Config)
    (accountAddress nftCollection nftId : string)
    (withdrawals : list Resource) :
  buildOutCaveManifest CONFIG accountAddress nftCollection nftId withdrawals
  = render_manifest
      (withdraw_manifest (componentAddress CONFIG) accountAddress
         nftCollection nftId withdrawals).
Proof.
  unfold buildOutCaveManifest.
  erewrite trim_template_lines by reflexivity.
  rewrite render_manifest_lines.
  cbn [withdraw_manifest proof_preamble app manifest_lines instruction_lines
       map render_value].
  rewrite map_map, (map_ext _ _ render_withdrawal_tuple).
  string_norm. reflexivity.
Qed.

(** C4, as the code has it: when no string given to the builder holds a
    double quote, the withdrawal manifest is the text of the proof-creation
    preamble, one call of [out_cave] with the proof and one array holding a
    tuple (address, amount) for each withdrawal, in input order and with the
    strings as given, and a last statement that deposits the whole worktop
    into the account; it is the text of no other manifest. *)
Theorem buildOutCaveManifest_is_withdraw_manifest (CONFIG : Config)
    (accountAddress nftCollection nftId : string)
    (withdrawals : list Resource) :
  quote_free (componentAddress CONFIG) = true ->
  quote_free accountAddress = true ->
  quote_free nftCollection = true ->
  quote_free nftId = true ->
  forallb quote_free_resource withdrawals = true ->
  let text :=
    buildOutCaveManifest CONFIG accountAddress nftCollection nftId
      withdrawals in
  let statements :=
    proof_preamble accountAddress nftCollection nftId
    ++ [ CALL_METHOD (componentAddress CONFIG) "out_cave"
           [MProof "nft_proof";
            MArray "Tuple"
              (map (fun w =>
                      MTuple [MAddress (resourceAddress w);
                              MDecimal (amount w)])
                 withdrawals)];
         CALL_METHOD accountAddress "deposit_batch"
           [MExpression "ENTIRE_WORKTOP"] ] in
  text = render_manifest statements
  ∧ quote_free_manifest statements = true
  ∧ (∀ l : list instruction,
       quote_free_manifest l = true -> render_manifest l = text ->
       l = statements).
Proof.
  intros Hk Ha Hc Hi Hrs text statements.
  assert (text = render_manifest statements) as Htext
    by apply buildOutCaveManifest_render.
  assert (quote_free_manifest statements = true) as Hfree
    by (by apply quote_free_withdraw_manifest).
  split; [done|]. split; [done|].
  intros l Hl Hrender. apply render_manifest_inj; [done..|].
  by rewrite Hrender.
Qed.

Lemma buildOutCaveManifest_is_withdraw_manifest_witness :
  let text :=
    buildOutCaveManifest {| componentAddress := "component" |} "account"
      "collection" "#1#"
      [ {| resourceAddress := "A"; amount := "10" |};
        {| resourceAddress := "B"; amount := "5" |} ] in
  let statements :=
    [ CALL_METHOD "account" "create_proof_of_non_fungibles"
        [MAddress "collection";
         MArray "NonFungibleLocalId" [MNonFungibleLocalId "#1#"]];
      POP_FROM_AUTH_ZONE "nft_proof";
      CALL_METHOD "component" "out_cave"
        [MProof "nft_proof";
         MArray "Tuple" [MTuple [MAddress "A"; MDecimal "10"];
                         MTuple [MAddress "B"; MDecimal "5"]]];
      CALL_METHOD "account" "deposit_batch"
        [MExpression "ENTIRE_WORKTOP"] ] in
  text = render_manifest statements
  ∧ quote_free_manifest statements = true
  ∧ (∀ l : list instruction,
       quote_free_manifest l = true -> render_manifest l = text ->
       l = statements).
Proof.
  apply (buildOutCaveManifest_is_withdraw_manifest
           {| componentAddress := "component" |} "account" "collection"
           "#1#"
           [ {| resourceAddress := "A"; amount := "10" |};
             {| resourceAddress := "B"; amount := "5" |} ]); reflexivity.
Defined.

(** C4 as stated fails where a string holds double quotes: one withdrawal
    whose amount closes its literal and its tuple gives the manifest of two
    withdrawals, with another amount. *)
Lemma buildOutCaveManifest_amount_brings_tuple :
  let amount :=
    "10" +:+ dq +:+ ")), Tuple(Address(" +:+ dq +:+ "B" +:+ dq
      +:+ "), Decimal(" +:+ dq +:+ "5" in
  let statements :=
    [ CALL_METHOD "account" "create_proof_of_non_fungibles"
        [MAddress "collection";
         MArray "NonFungibleLocalId" [MNonFungibleLocalId "#1#"]];
      POP_FROM_AUTH_ZONE "nft_proof";
      CALL_METHOD "component" "out_cave"
        [MProof "nft_proof";
         MArray "Tuple" [MTuple [MAddress "A"; MDecimal "10"];
                         MTuple [MAddress "B"; MDecimal "5"]]];
      CALL_METHOD "account" "deposit_batch"
        [MExpression "ENTIRE_WORKTOP"] ] in
  buildOutCaveManifest {| componentAddress := "component" |} "account"
    "collection" "#1#" [ {| resourceAddress := "A"; amount := amount |} ]
  = render_manifest statements
  ∧ quote_free_manifest statements = true
  ∧ buildOutCaveManifest {| componentAddress := "component" |} "account"
      "collection" "#1#" [ {| resourceAddress := "A"; amount := amount |} ]
    = buildOutCaveManifest {| componentAddress := "component" |} "account"
        "collection" "#1#"
        [ {| resourceAddress := "A"; amount := "10" |};
          {| resourceAddress := "B"; amount := "5" |} ].
Proof. intros amount statements. by vm_compute. Qed.

(** The loop of [buildInCaveManifest] appends, for each resource, the lines
    of its two statements. *)
Lemma forEach_withdraw_and_take (accountAddress : string)
    (resources : list Resource) (index : nat) (a : list string) :
  a ≠ [] ->
  forEach_index
    (fun manifest resource index =>
       manifest +:+ template
         [ "";
           "CALL_METHOD";
           "  Address(" +:+ quoted accountAddress +:+ ")";
           "  " +:+ quoted "withdraw";
           "  Address(" +:+ quoted (resourceAddress resource) +:+ ")";
           "  Decimal(" +:+ quoted (amount resource) +:+ ")";
           ";";
           "";
           "TAKE_FROM_WORKTOP";
           "  Address(" +:+ quoted (resourceAddress resource) +:+ ")";
           "  Decimal(" +:+ quoted (amount resource) +:+ ")";
           "  Bucket(" +:+ quoted ("bucket_" +:+ pretty index) +:+ ")";
           ";";
           "" ])
    (template (a ++ [""])) resources index
  = template
      (a ++ withdraw_and_take_lines accountAddress resources index ++ [""]).
Proof.
  revert index a. induction resources as [|r rs IH]; intros index a Ha; [done|].
  cbn [forEach_index withdraw_and_take_lines].
  rewrite template_glue by done.
  replace (a ++ [ "";
           "CALL_METHOD";
           "  Address(" +:+ quoted accountAddress +:+ ")";
           "  " +:+ quoted "withdraw";
           "  Address(" +:+ quoted (resourceAddress r) +:+ ")";
           "  Decimal(" +:+ quoted (amount r) +:+ ")";
           ";";
           "";
           "TAKE_FROM_WORKTOP";
           "  Address(" +:+ quoted (resourceAddress r) +:+ ")";
           "  Decimal(" +:+ quoted (amount r) +:+ ")";
           "  Bucket(" +:+ quoted ("bucket_" +:+ pretty index) +:+ ")";
           ";";
           "" ])
    with ((a ++ "" :: manifest_lines (withdraw_and_take accountAddress index r))
          ++ [""]).
  - rewrite IH by (by destruct a). by rewrite <- !app_assoc.
  - by rewrite <- app_assoc.
Qed.

(** The same lines, from the statements of the specification. *)
Lemma manifest_lines_withdraw_and_take (accountAddress : string)
    (resources : list Resource) (index : nat) (rest : list instruction) :
  rest ≠ [] ->
  "" :: manifest_lines
          (mjoin (imap (fun j => withdraw_and_take accountAddress (index + j))
                    resources) ++ rest)
  = withdraw_and_take_lines accountAddress resources index
    ++ "" :: manifest_lines rest.
Proof.
  intros Hrest. revert index.
  induction resources as [|r rs IH]; intros index; [done|].
  rewrite imap_cons. cbn [mjoin list_join withdraw_and_take_lines].
  rewrite Nat.add_0_r, <- app_assoc.
  rewrite manifest_lines_app; [|done|by destruct (mjoin _)].
  rewrite <- app_comm_cons, <- app_assoc. do 2 f_equal.
  rewrite <- IH. do 4 f_equal. apply imap_ext. intros j x _. simpl.
  by rewrite Nat.add_succ_r.
Qed.

Lemma map_imap {A B C} (g : B -> C) (f : nat -> A -> B) (l : list A) :
  map g (imap f l) = imap (fun n x => g (f n x)) l.
Proof.
  revert f. induction l as [|x l IH]; intros f; [done|].
  cbn [imap map]. by rewrite IH.
Qed.

Lemma bucket_name_inj : Inj (=) (=) bucket_name.
Proof.
  intros i j Hij. unfold bucket_name in Hij.
  by apply (inj (String.app "bucket_")), (inj pretty) in Hij.
Qed.

Lemma trim_template_app (c : ascii) (s : string)
    (rest1 rest2 body2 : list string) :
  is_white_space c = false ->
  strip_terminator rest2 = Some body2 ->
  trim (template (("" :: String c s :: rest1) ++ rest2))
  = template (String c s :: rest1 ++ body2 ++ [";"]).
Proof.
  intros Hc Hs. rewrite (strip_terminator_Some _ _ Hs).
  rewrite <- !app_comm_cons, !app_assoc. by apply trim_template.
Qed.

Lemma buildInCaveManifest_render (CONFIG : Config)
    (accountAddress nftCollection nftId : string)
    (resources : list Resource) :
  buildInCaveManifest CONFIG accountAddress nftCollection nftId resources
  = render_manifest
      (deposit_manifest (componentAddress CONFIG) accountAddress nftCollection
         nftId resources).
Proof.
  unfold buildInCaveManifest. cbv zeta.
  lazymatch goal with
  | |- context [forEach_index ?f (template ?l) resources 0%nat] =>
      change (forEach_index f (template l) resources 0%nat)
        with (forEach_index f (template (removelast l ++ [""])) resources
                0%nat)
  end.
  cbn [removelast]. rewrite forEach_withdraw_and_take by done.
  rewrite app_assoc, template_glue; [|done|done].
  lazymatch goal with
  | |- trim (template ((("" :: ?x :: ?a) ++ ?loop) ++ ?c)) = _ =>
      change (("" :: x :: a) ++ loop) with (("" :: x :: a ++ loop))
  end.
  erewrite trim_template_app by reflexivity.
  rewrite render_manifest_lines. f_equal. unfold deposit_manifest.
  rewrite manifest_lines_app; [|done|by destruct (mjoin _)].
  rewrite (manifest_lines_withdraw_and_take accountAddress resources 0)
    by done.
  cbn [removelast proof_preamble manifest_lines instruction_lines app map
       render_value].
  rewrite map_imap. cbn [render_value]. unfold bucket_name.
  string_norm. reflexivity.
Qed.

(** C3, as the code has it: when no string given to the builder holds a
    double quote, the deposit manifest is the text of the proof-creation
    preamble, then for each resource in input order a withdrawal from the
    account and a take into the bucket named by its position, then one call
    of [in_cave] with the proof and the buckets in input order; it is the
    text of no other manifest, and the bucket names of one manifest are
    pairwise distinct. *)
Theorem buildInCaveManifest_is_deposit_manifest (CONFIG : Config)
    (accountAddress nftCollection nftId : string)
    (resources : list Resource) :
  quote_free (componentAddress CONFIG) = true ->
  quote_free accountAddress = true ->
  quote_free nftCollection = true ->
  quote_free nftId = true ->
  forallb quote_free_resource resources = true ->
  let text :=
    buildInCaveManifest CONFIG accountAddress nftCollection nftId
      resources in
  let statements :=
    proof_preamble accountAddress nftCollection nftId
    ++ mjoin (imap (fun index r =>
                      [ CALL_METHOD accountAddress "withdraw"
                          [MAddress (resourceAddress r); MDecimal (amount r)];
                        TAKE_FROM_WORKTOP (resourceAddress r) (amount r)
                          (bucket_name index) ])
                resources)
    ++ [ CALL_METHOD (componentAddress CONFIG) "in_cave"
           [MProof "nft_proof";
            MArray "Bucket"
              (imap (fun index _ => MBucket (bucket_name index))
                 resources)] ] in
  text = render_manifest statements
  ∧ quote_free_manifest statements = true
  ∧ (∀ l : list instruction,
       quote_free_manifest l = true -> render_manifest l = text ->
       l = statements)
  ∧ NoDup (imap (fun index _ => bucket_name index) resources).
Proof.
  intros Hk Ha Hc Hi Hrs text statements.
  assert (text = render_manifest statements) as Htext
    by apply buildInCaveManifest_render.
  assert (quote_free_manifest statements = true) as Hfree
    by (by apply quote_free_deposit_manifest).
  split; [done|]. split; [done|]. split.
  - intros l Hl Hrender. apply render_manifest_inj; [done..|].
    by rewrite Hrender.
  - rewrite imap_seq_0. apply NoDup_fmap_2; [apply bucket_name_inj|].
    apply NoDup_seq.
Qed.

Lemma buildInCaveManifest_is_deposit_manifest_witness :
  let text :=
    buildInCaveManifest {| componentAddress := "component" |} "account"
      "collection" "#1#"
      [ {| resourceAddress := "A"; amount := "10" |};
        {| resourceAddress := "B"; amount := "5" |} ] in
  let statements :=
    [ CALL_METHOD "account" "create_proof_of_non_fungibles"
        [MAddress "collection";
         MArray "NonFungibleLocalId" [MNonFungibleLocalId "#1#"]];
      POP_FROM_AUTH_ZONE "nft_proof";
      CALL_METHOD "account" "withdraw" [MAddress "A"; MDecimal "10"];
      TAKE_FROM_WORKTOP "A" "10" "bucket_0";
      CALL_METHOD "account" "withdraw" [MAddress "B"; MDecimal "5"];
      TAKE_FROM_WORKTOP "B" "5" "bucket_1";
      CALL_METHOD "component" "in_cave"
        [MProof "nft_proof";
         MArray "Bucket" [MBucket "bucket_0"; MBucket "bucket_1"]] ] in
  text = render_manifest statements
  ∧ quote_free_manifest statements = true
  ∧ (∀ l : list instruction,
       quote_free_manifest l = true -> render_manifest l = text ->
       l = statements)
  ∧ NoDup ["bucket_0"; "bucket_1"].
Proof.
  apply (buildInCaveManifest_is_deposit_manifest
           {| componentAddress := "component" |} "account" "collection"
           "#1#"
           [ {| resourceAddress := "A"; amount := "10" |};
             {| resourceAddress := "B"; amount := "5" |} ]); reflexivity.
Defined.

(** C3 as stated fails where a string holds double quotes: an amount can
    close its literal and its statement.  Here the one resource is taken
    into [bucket_1], not into the bucket of its position, and the manifest
    calls [in_cave] three times. *)
Lemma buildInCaveManifest_amount_brings_statements :
  let amount :=
    String.concat nl
      [ "1" +:+ dq +:+ ")";
        "  Bucket(" +:+ dq +:+ "bucket_1" +:+ dq +:+ ")"; ";"; "";
        "CALL_METHOD";
        "  Address(" +:+ dq +:+ "component" +:+ dq +:+ ")";
        "  " +:+ dq +:+ "in_cave" +:+ dq;
        "  Decimal(" +:+ dq +:+ "2" ] in
  let statements :=
    [ CALL_METHOD "account" "create_proof_of_non_fungibles"
        [MAddress "collection";
         MArray "NonFungibleLocalId" [MNonFungibleLocalId "#1#"]];
      POP_FROM_AUTH_ZONE "nft_proof";
      CALL_METHOD "account" "withdraw"
        [MAddress "A"; MDecimal "1"; MBucket "bucket_1"];
      CALL_METHOD "component" "in_cave" [MDecimal "2"];
      TAKE_FROM_WORKTOP "A" "1" "bucket_1";
      CALL_METHOD "component" "in_cave" [MDecimal "2"; MBucket "bucket_0"];
      CALL_METHOD "component" "in_cave"
        [MProof "nft_proof"; MArray "Bucket" [MBucket "bucket_0"]] ] in
  buildInCaveManifest {| componentAddress := "component" |} "account"
    "collection" "#1#" [ {| resourceAddress := "A"; amount := amount |} ]
  = render_manifest statements
  ∧ quote_free_manifest statements = true
  ∧ ∀ resources : list Resource,
      statements
      ≠ deposit_manifest "component" "account" "collection" "#1#" resources.
Proof.
  intros amount statements. split; [by vm_compute|]. split; [by vm_compute|].
  intros [|r1 [|r2 [|r3 rs]]]; cbn; discriminate.
Qed.

(** ** Empty lists *)


(** ** The examples of the specification *)

Example deposit_of_A_and_B :
  buildInCaveManifest {| componentAddress := "component" |} "account"
    "collection" "#1#"
    [ {| resourceAddress := "A"; amount := "10" |};
      {| resourceAddress := "B"; amount := "5" |} ]
  = render_manifest
      [ CALL_METHOD "account" "create_proof_of_non_fungibles"
          [MAddress "collection";
           MArray "NonFungibleLocalId" [MNonFungibleLocalId "#1#"]];
        POP_FROM_AUTH_ZONE "nft_proof";
        CALL_METHOD "account" "withdraw" [MAddress "A"; MDecimal "10"];
        TAKE_FROM_WORKTOP "A" "10" "bucket_0";
        CALL_METHOD "account" "withdraw" [MAddress "B"; MDecimal "5"];
        TAKE_FROM_WORKTOP "B" "5" "bucket_1";
        CALL_METHOD "component" "in_cave"
          [MProof "nft_proof";
           MArray "Bucket" [MBucket "bucket_0"; MBucket "bucket_1"]] ].
Proof. vm_compute. reflexivity. Qed.

Example withdrawal_of_A_and_B :
  buildOutCaveManifest {| componentAddress := "component" |} "account"
    "collection" "#1#"
    [ {| resourceAddress := "A"; amount := "10" |};
      {| resourceAddress := "B"; amount := "5" |} ]
  = render_manifest
      [ CALL_METHOD "account" "create_proof_of_non_fungibles"
          [MAddress "collection";
           MArray "NonFungibleLocalId" [MNonFungibleLocalId "#1#"]];
        POP_FROM_AUTH_ZONE "nft_proof";
        CALL_METHOD "component" "out_cave"
          [MProof "nft_proof";
           MArray "Tuple"
             [MTuple [MAddress "A"; MDecimal "10"];
              MTuple [MAddress "B"; MDecimal "5"]]];
        CALL_METHOD "account" "deposit_batch"
          [MExpression "ENTIRE_WORKTOP"] ].
Proof. vm_compute. reflexivity. Qed.

(** * Further properties of the stores *)

(** ** [cache.get] on any content *)

Lemma cache_get_cases tn (now : Z) (key : string) (ls : Storage) :
  cache.get tn now key ls
  = match ls !! (CACHE_PREFIX +:+ key) with
    | Some (Json doc) =>
        match GetValue doc "value", GetValue doc "expiry" with
        | Ret v, Ret e =>
            match (if strict_neq_Infinity e
                   then cache.js_gt tn (Fin now) e else Ret false) with
            | Ret true => (Ret VNull, delete (CACHE_PREFIX +:+ key) ls)
            | Ret false => (Ret v, ls)
            | Throw _ => (Ret VNull, ls)
            end
        | _, _ => (Ret VNull, ls)
        end
    | _ => (Ret VNull, ls)
    end.
Proof.
  unfold cache.get. js_unfold.
  destruct (ls !! (CACHE_PREFIX +:+ key)) as [[doc|s]|]; simpl; try done.
  - destruct (GetValue doc "value") as [v|]; [|done].
    destruct (GetValue doc "expiry") as [e|]; [|done].
    destruct (strict_neq_Infinity e); [|done].
    by destruct (cache.js_gt tn (Fin now) e) as [[]|].
  - by destruct (String.eqb s "").
Qed.

(** X1: [cache.get] never throws, whatever [localStorage] holds; where the
    key is absent, or holds a string that is not JSON, or the text [null],
    it returns [null] and leaves the store as it is. *)
Theorem cache_get_never_throws tn (now : Z) (key : string) (ls : Storage) :
  (∃ v : jsval, (cache.get tn now key ls).1 = Ret v)
  ∧ match ls !! (CACHE_PREFIX +:+ key) with
    | None | Some (Raw _) | Some (Json VNull) =>
        cache.get tn now key ls = (Ret VNull, ls)
    | Some (Json _) => True
    end.
Proof.
  rewrite cache_get_cases. split.
  - destruct (ls !! (CACHE_PREFIX +:+ key)) as [[doc|s]|]; simpl; eauto.
    destruct (GetValue doc "value") as [v|]; [|by eauto].
    destruct (GetValue doc "expiry") as [e|]; [|by eauto].
    destruct (strict_neq_Infinity e); [|by eauto].
    destruct (cache.js_gt tn (Fin now) e) as [[]|]; eauto.
  - by destruct (ls !! (CACHE_PREFIX +:+ key)) as [[[]|s]|].
Qed.

(** X2: [cache.get] writes nothing: the store it leaves is the one it found,
    or that store without the entry of its key, and then it has returned
    [null]. *)
Theorem cache_get_only_evicts_own_entry tn (now : Z) (key : string)
    (ls : Storage) :
  (cache.get tn now key ls).2 = ls
  ∨ (cache.get tn now key ls).1 = Ret VNull
    ∧ (cache.get tn now key ls).2 = delete (CACHE_PREFIX +:+ key) ls.
Proof.
  rewrite cache_get_cases.
  destruct (ls !! (CACHE_PREFIX +:+ key)) as [[doc|s]|]; simpl; auto.
  destruct (GetValue doc "value") as [v|]; [|by auto].
  destruct (GetValue doc "expiry") as [e|]; [|by auto].
  destruct (strict_neq_Infinity e); [|by auto].
  destruct (cache.js_gt tn (Fin now) e) as [[]|]; auto.
Qed.

(** ** Time to live *)

Lemma cache_get_after_set tn (t0 ttl t : Z) (key : string) (v : jsval)
    (ls : Storage) :
  cache.get tn t key (cache.set t0 key v (Fin ttl) ls).2
  = (if bool_decide (t0 + ttl < t)
     then (Ret VNull, delete (CACHE_PREFIX +:+ key) ls)
     else (Ret (default VUndefined (JSON_roundtrip v)),
           (cache.set t0 key v (Fin ttl) ls).2)).
Proof.
  rewrite (cache_get_entry _ _ _ _ _ _
             (cache_entry_set t0 key v (Fin ttl) ls)).
  cbn [num_add strict_neq_Infinity cache.js_gt cache.ToNumber num_gt].
  case_bool_decide; [|done].
  unfold cache.set. js_unfold. cbn [snd]. by rewrite delete_insert_eq.
Qed.

Lemma sessionCache_get_after_set (t0 ttl t : Z) (key : string) (v : jsval)
    (data : sessionCache.Data) :
  sessionCache.get t key (sessionCache.set t0 key v (Fin ttl) data).2
  = (if bool_decide (t0 + ttl < t)
     then (Ret VNull, delete key data)
     else (Ret v, (sessionCache.set t0 key v (Fin ttl) data).2)).
Proof.
  unfold sessionCache.get, sessionCache.set. cbn [snd].
  rewrite lookup_insert_eq.
  cbn [sessionCache.expiry sessionCache.value num_add num_gt].
  rewrite (bool_decide_eq_false_2 (Fin (t0 + ttl) = PInf)) by done.
  cbn [negb andb]. case_bool_decide; [|done].
  by rewrite delete_insert_eq.
Qed.

(** X3: an entry set at time [t0] with a TTL of [ttl] milliseconds (any
    integer) is returned by [get] at every time up to [t0 + ttl]: as its JSON
    image by the persistent store, as it is by the session store.  At every
    later time [get] returns [null] and the store is left without the
    entry. *)
Theorem set_then_get_within_ttl tn (t0 ttl t : Z) (key : string) (v : jsval)
    (ls : Storage) (data : sessionCache.Data) :
  let ls' := (cache.set t0 key v (Fin ttl) ls).2 in
  let data' := (sessionCache.set t0 key v (Fin ttl) data).2 in
  cache.get tn t key ls'
  = (if bool_decide (t <= t0 + ttl)
     then (Ret (default VUndefined (JSON_roundtrip v)), ls')
     else (Ret VNull, delete (CACHE_PREFIX +:+ key) ls))
  ∧ sessionCache.get t key data'
    = (if bool_decide (t <= t0 + ttl)
       then (Ret v, data')
       else (Ret VNull, delete key data)).
Proof.
  intros ls' data'. unfold ls', data'.
  rewrite cache_get_after_set, sessionCache_get_after_set.
  split; repeat case_bool_decide; try lia; done.
Qed.

(** X4: a value that is a number but not a finite one ([NaN], [Infinity],
    [-Infinity]) comes back as [null] from the persistent store and as
    itself from the session store. *)
Theorem non_finite_value_is_read_as_null tn (now ttl : Z) (key : string)
    (n : number) (ls : Storage) (data : sessionCache.Data) :
  0 <= ttl ->
  (∀ z, n ≠ Fin z) ->
  (cache.get tn now key (cache.set now key (VNum n) (Fin ttl) ls).2).1
  = Ret VNull
  ∧ (sessionCache.get now key
       (sessionCache.set now key (VNum n) (Fin ttl) data).2).1
    = Ret (VNum n).
Proof.
  intros Httl Hn.
  rewrite cache_get_after_set, sessionCache_get_after_set.
  rewrite !bool_decide_eq_false_2 by lia. split; [|done].
  destruct n as [z| | |]; [by destruct (Hn z)|done..].
Qed.

Lemma non_finite_value_is_read_as_null_witness :
  (cache.get (fun _ => Ret NaN) 1000 "k"
     (cache.set 1000 "k" (VNum NaN) (Fin 60000) ∅).2).1
  = Ret VNull
  ∧ (sessionCache.get 1000 "k"
       (sessionCache.set 1000 "k" (VNum NaN) (Fin 60000) ∅).2).1
    = Ret (VNum NaN).
Proof.
  apply (non_finite_value_is_read_as_null (fun _ => Ret NaN) 1000 60000 "k"
           NaN ∅ ∅); [lia | discriminate].
Defined.

(** ** Writing and removing entries *)

Lemma cache_set_state (now : Z) (key : string) (v : jsval) (ttlMs : number)
    (ls : Storage) :
  cache.set now key v ttlMs ls
  = (Ret tt,
     <[CACHE_PREFIX +:+ key :=
         JSON_stringify
           (VObj [("value", v); ("expiry", VNum (num_add (Fin now) ttlMs))])]>
       ls).
Proof. done. Qed.

(** X6: after [cache.remove(key)], [cache.get(key)] returns [null]; removing
    an entry that was just set gives back the store without the key. *)
Theorem cache_remove_then_get tn (now t0 : Z) (key : string) (v : jsval)
    (ttlMs : number) (ls : Storage) :
  cache.get tn now key (cache.remove key ls).2
  = (Ret VNull, delete (CACHE_PREFIX +:+ key) ls)
  ∧ (cache.remove key (cache.set t0 key v ttlMs ls).2).2
    = delete (CACHE_PREFIX +:+ key) ls.
Proof.
  split.
  - rewrite cache_get_cases. unfold cache.remove. js_unfold. cbn [snd].
    by rewrite lookup_delete_eq.
  - rewrite cache_set_state. unfold cache.remove. js_unfold. cbn [snd].
    by rewrite delete_insert_eq.
Qed.

Lemma clearAll_lookup (ls : Storage) (k : string) :
  (cache.clearAll ls).2 !! k
  = if String.prefix CACHE_PREFIX k then None else ls !! k.
Proof.
  unfold cache.clearAll. js_unfold. rewrite clearAll_loop.
  rewrite forEach_removeItem. cbn [snd].
  rewrite lookup_foldl_delete, drop_0, app_nil_l.
  rewrite take_ge by (by rewrite length_fmap, length_map_to_list).
  destruct (String.prefix CACHE_PREFIX k) eqn:Hp.
  - case_bool_decide as Hin; [done|].
    destruct (ls !! k) as [t|] eqn:Hk; [|done].
    exfalso. apply Hin. apply list_elem_of_In, filter_In. split; [|done].
    apply list_elem_of_In, elem_of_keys. by exists t.
  - case_bool_decide as Hin; [|done].
    apply list_elem_of_In, filter_In in Hin as [_ Hin]. congruence.
Qed.

Lemma prefix_CACHE_PREFIX (key : string) :
  String.prefix CACHE_PREFIX (CACHE_PREFIX +:+ key) = true.
Proof. unfold CACHE_PREFIX. cbn. by destruct key. Qed.

(** What [get] returns where the registry has no property under the
    ticker: [null], or, under a name of [Object.prototype], the built-in
    that the empty object inherits. *)
Lemma member_or_inherited (ticker : string) :
  member_or (inherited ticker) VNull
  = if bool_decide (ticker ∈ Object_prototype_names)
    then Builtin ticker else Value VNull.
Proof. unfold inherited. by case_bool_decide. Qed.

(** X7: [cache.clearAll] empties the persistent cache and the registry as
    well, whose key lies under the same prefix: afterwards [cache.get]
    returns [null] for every key, [permanentResourceCache.getAll] returns the
    empty object and [permanentResourceCache.get] returns [null] for every
    ticker that is not the name of a member of [Object.prototype]; for such
    a name it returns the built-in the empty object inherits. *)
Theorem clearAll_empties_cache_and_registry tn (now : Z) (key ticker : string)
    (ls : Storage) :
  let ls' := (cache.clearAll ls).2 in
  cache.get tn now key ls' = (Ret VNull, ls')
  ∧ permanentResourceCache.getAll ls' = (Ret (VObj []), ls')
  ∧ permanentResourceCache.get ticker ls'
    = (Ret (if bool_decide (ticker ∈ Object_prototype_names)
            then Builtin ticker else Value VNull), ls').
Proof.
  intros ls'.
  assert (ls' !! (CACHE_PREFIX +:+ key) = None) as Hkey.
  { unfold ls'. by rewrite clearAll_lookup, prefix_CACHE_PREFIX. }
  assert (ls' !! permanentResourceCache.REGISTRY_KEY = None) as Hreg.
  { unfold ls', permanentResourceCache.REGISTRY_KEY.
    by rewrite clearAll_lookup, prefix_CACHE_PREFIX. }
  split; [by rewrite cache_get_cases, Hkey|].
  unfold permanentResourceCache.get, permanentResourceCache.getAll.
  js_unfold. rewrite Hreg. split; [done|].
  cbn [item_falsy Get obj_read obj_has]. by rewrite member_or_inherited.
Qed.

(** ** One namespace for the cache and the registry *)

(** X8: the registry lives under the cache key [resource_cache]:
    [cache.set("resource_cache", ...)] replaces the whole registry by the
    cache item, so that afterwards [permanentResourceCache.get] returns, for
    every ticker other than [value] and [expiry], what it returns on an
    empty registry: [null], or under a name of [Object.prototype] the
    built-in of that name. *)
Theorem cache_set_resource_cache_replaces_registry (now : Z) (v : jsval)
    (ttlMs : number) (ticker : string) (ls : Storage) :
  ticker ≠ "value" -> ticker ≠ "expiry" ->
  let ls' := (cache.set now RESOURCE_CACHE_KEY v ttlMs ls).2 in
  permanentResourceCache.get ticker ls'
  = (Ret (if bool_decide (ticker ∈ Object_prototype_names)
          then Builtin ticker else Value VNull), ls').
Proof.
  intros Hv He ls'. unfold ls'. rewrite cache_set_state. cbn [snd].
  unfold permanentResourceCache.get, permanentResourceCache.getAll.
  js_unfold. fold permanentResourceCache.REGISTRY_KEY.
  rewrite lookup_insert_eq. unfold JSON_stringify.
  rewrite JSON_roundtrip_VObj. cbn [item_falsy JSON_parse Get].
  rewrite !roundtrip_props_cons, <- member_or_inherited.
  apply String.eqb_neq in Hv, He. unfold obj_read.
  destruct (JSON_roundtrip v), (JSON_roundtrip (VNum _));
    cbn [obj_has roundtrip_props orb]; by rewrite ?Hv, ?He.
Qed.

Lemma cache_set_resource_cache_replaces_registry_witness :
  let ls : Storage :=
    {[ "hypercave_resource_cache" :=
         Json (VObj [("XRD", VObj [("address", VStr "resource_xrd");
                                   ("iconUrl", VNull)])]) ]} in
  let ls' := (cache.set 1000 RESOURCE_CACHE_KEY (VStr "v") (Fin 60000) ls).2 in
  (permanentResourceCache.get "XRD" ls).1
  = Ret (Value (VObj [("address", VStr "resource_xrd");
                      ("iconUrl", VNull)]))
  ∧ permanentResourceCache.get "XRD" ls' = (Ret (Value VNull), ls').
Proof.
  intros ls ls'. split; [reflexivity|].
  apply (cache_set_resource_cache_replaces_registry 1000 (VStr "v")
           (Fin 60000) "XRD" ls); discriminate.
Defined.

(** ** The session store *)

(** X9: after [sessionCache.remove(key)], [get(key)] returns [null] and
    [get] returns for every other key what it returned before; after
    [sessionCache.clear()], [get] returns [null] for every key. *)
Theorem sessionCache_remove_and_clear (now : Z) (key key' : string)
    (data : sessionCache.Data) :
  key' ≠ key ->
  sessionCache.get now key (sessionCache.remove key data).2
  = (Ret VNull, delete key data)
  ∧ (sessionCache.get now key' (sessionCache.remove key data).2).1
    = (sessionCache.get now key' data).1
  ∧ sessionCache.get now key (sessionCache.clear data).2 = (Ret VNull, ∅).
Proof.
  intros Hne. unfold sessionCache.get, sessionCache.remove, sessionCache.clear.
  cbn [snd]. rewrite lookup_delete_eq, lookup_delete_ne, lookup_empty by done.
  split; [reflexivity|]. split; [|reflexivity].
  destruct (data !! key') as [item|]; [|reflexivity].
  by destruct (negb _ && _).
Qed.

Lemma sessionCache_remove_and_clear_witness :
  let data := (sessionCache.set 1000 "nfts:a" (VStr "n") (Fin 60000)
                 (sessionCache.set 1000 "fungibles:a" (VStr "f") (Fin 60000)
                    ∅).2).2 in
  sessionCache.get 2000 "fungibles:a" (sessionCache.remove "fungibles:a" data).2
  = (Ret VNull, delete "fungibles:a" data)
  ∧ (sessionCache.get 2000 "nfts:a"
       (sessionCache.remove "fungibles:a" data).2).1
    = (sessionCache.get 2000 "nfts:a" data).1
  ∧ sessionCache.get 2000 "fungibles:a" (sessionCache.clear data).2
    = (Ret VNull, ∅).
Proof.
  intros data.
  apply (sessionCache_remove_and_clear 2000 "fungibles:a" "nfts:a" data).
  discriminate.
Defined.

(** X10: [sessionCache.get] writes nothing: the map it leaves is the one it
    found, or that map without the entry of its key, and then it has
    returned [null]. *)
Theorem sessionCache_get_only_evicts_own_entry (now : Z) (key : string)
    (data : sessionCache.Data) :
  (sessionCache.get now key data).2 = data
  ∨ (sessionCache.get now key data).1 = Ret VNull
    ∧ (sessionCache.get now key data).2 = delete key data.
Proof.
  unfold sessionCache.get. destruct (data !! key) as [item|]; [|by left].
  destruct (_ && _); [by right|by left].
Qed.

(** X11: a TTL that is [NaN] gives a session entry that never expires, and
    a persistent entry that is gone at the first read; a TTL of [-Infinity]
    gives a session entry that is gone at the first read. *)
Theorem NaN_ttl_never_expires_in_session tn (t0 t : Z) (key : string)
    (v : jsval) (ls : Storage) (data : sessionCache.Data) :
  0 < t ->
  sessionCache.get t key (sessionCache.set t0 key v NaN data).2
  = (Ret v, (sessionCache.set t0 key v NaN data).2)
  ∧ sessionCache.get t key (sessionCache.set t0 key v NInf data).2
    = (Ret VNull, delete key data)
  ∧ cache.get tn t key (cache.set t0 key v NaN ls).2
    = (Ret VNull, delete (CACHE_PREFIX +:+ key) ls).
Proof.
  intros Ht. split; [|split].
  { unfold sessionCache.get, sessionCache.set. cbn [snd].
    by rewrite lookup_insert_eq. }
  { unfold sessionCache.get, sessionCache.set. cbn [snd].
    rewrite lookup_insert_eq. cbn. by rewrite delete_insert_eq. }
  rewrite (cache_get_entry _ _ _ _ _ _ (cache_entry_set t0 key v NaN ls)).
  cbn [num_add strict_neq_Infinity cache.js_gt cache.ToNumber num_gt].
  rewrite bool_decide_eq_true_2 by done.
  rewrite cache_set_state. cbn [snd]. by rewrite delete_insert_eq.
Qed.

Lemma NaN_ttl_never_expires_in_session_witness :
  sessionCache.get 315360001000 "k" (sessionCache.set 1000 "k" (VStr "v") NaN ∅).2
  = (Ret (VStr "v"), (sessionCache.set 1000 "k" (VStr "v") NaN ∅).2)
  ∧ sessionCache.get 1000 "k" (sessionCache.set 1000 "k" (VStr "v") NInf ∅).2
    = (Ret VNull, delete "k" ∅)
  ∧ cache.get (fun _ => Ret NaN) 1000 "k"
      (cache.set 1000 "k" (VStr "v") NaN ∅).2
    = (Ret VNull, delete (CACHE_PREFIX +:+ "k") ∅).
Proof.
  split; [|split].
  - apply (NaN_ttl_never_expires_in_session (fun _ => Ret NaN) 1000
             315360001000 "k" (VStr "v") ∅ ∅). lia.
  - apply (NaN_ttl_never_expires_in_session (fun _ => Ret NaN) 1000
             1000 "k" (VStr "v") ∅ ∅). lia.
  - apply (NaN_ttl_never_expires_in_session (fun _ => Ret NaN) 1000
             1000 "k" (VStr "v") ∅ ∅). lia.
Defined.

(** ** The registry, read and written *)

(** X12: [permanentResourceCache.getAll] and [get] never change
    [localStorage]; where the registry key is absent or holds a string that
    is not JSON, [getAll] returns the empty object and [get] returns [null]
    for every ticker that is not the name of a member of
    [Object.prototype], and for such a name the built-in the empty object
    inherits. *)
Theorem registry_reads_change_nothing (ticker : string) (ls : Storage) :
  (permanentResourceCache.getAll ls).2 = ls
  ∧ (permanentResourceCache.get ticker ls).2 = ls
  ∧ match ls !! permanentResourceCache.REGISTRY_KEY with
    | None | Some (Raw _) =>
        permanentResourceCache.getAll ls = (Ret (VObj []), ls)
        ∧ permanentResourceCache.get ticker ls
          = (Ret (if bool_decide (ticker ∈ Object_prototype_names)
                  then Builtin ticker else Value VNull), ls)
    | Some (Json _) => True
    end.
Proof.
  rewrite <- member_or_inherited.
  unfold permanentResourceCache.get, permanentResourceCache.getAll.
  js_unfold.
  destruct (ls !! permanentResourceCache.REGISTRY_KEY) as [[doc|s]|];
    cbn [item_falsy JSON_parse fst snd].
  - split; [done|]. split; [|done]. by destruct (Get doc ticker).
  - by destruct (String.eqb s "").
  - done.
Qed.

(** X13: [add] under a ticker other than [__proto__] writes the registry
    key and no other: afterwards [get] of the ticker returns the address
    with the icon as it was given (a truthy icon that JSON can hold), [get]
    of every other ticker returns what it returned before, and the rest of
    [localStorage] is as it was. *)
Theorem registry_add_then_get (ls : Storage) (t t' a : string) (icon : jsval) :
  permanentResourceCache.registry_ok ls = true ->
  t ≠ "__proto__" ->
  truthy icon = true -> serializable icon = true ->
  t' ≠ t ->
  let ls' := (permanentResourceCache.add t a icon ls).2 in
  (permanentResourceCache.get t ls').1
  = Ret (Value (VObj [("address", VStr a); ("iconUrl", icon)]))
  ∧ (permanentResourceCache.get t' ls').1
    = (permanentResourceCache.get t' ls).1
  ∧ delete permanentResourceCache.REGISTRY_KEY ls'
    = delete permanentResourceCache.REGISTRY_KEY ls.
Proof.
  intros Hok Hproto Ht Hs Hne ls'. unfold ls'.
  rewrite get_add_eq, get_add_ne by done.
  rewrite stored_entry_serializable by done.
  unfold permanentResourceCache.entry, js_or. rewrite Ht.
  split; [done|]. split; [done|].
  rewrite add_ok by done. cbn [snd]. by rewrite delete_insert_eq.
Qed.

Lemma registry_add_then_get_witness :
  let ls : Storage :=
    {[ "hypercave_resource_cache" :=
         Json (VObj [("HUG", VObj [("address", VStr "resource_hug");
                                   ("iconUrl", VNull)])]);
       "theme" := Raw "dark" ]} in
  let ls' :=
    (permanentResourceCache.add "XRD" "resource_xrd" (VStr "https://x/i.png")
       ls).2 in
  (permanentResourceCache.get "XRD" ls').1
  = Ret (Value (VObj [("address", VStr "resource_xrd");
                      ("iconUrl", VStr "https://x/i.png")]))
  ∧ (permanentResourceCache.get "HUG" ls').1
    = (permanentResourceCache.get "HUG" ls).1
  ∧ delete permanentResourceCache.REGISTRY_KEY ls'
    = delete permanentResourceCache.REGISTRY_KEY ls.
Proof.
  intros ls ls'.
  apply (registry_add_then_get ls "XRD" "HUG" "resource_xrd"
           (VStr "https://x/i.png"));
    [reflexivity | discriminate | reflexivity | reflexivity | discriminate].
Defined.

Lemma adds_in_turn (rs : list permanentResourceCache.resource) (ls : Storage) :
  permanentResourceCache.registry_ok ls = true ->
  foldl (fun s r =>
           (permanentResourceCache.add (permanentResourceCache.ticker r)
              (permanentResourceCache.address r)
              (permanentResourceCache.iconUrl r) s).2)
    ls rs
  = match rs with
    | [] => ls
    | _ :: _ =>
        <[permanentResourceCache.REGISTRY_KEY :=
            Json (VObj (permanentResourceCache.merged rs
                          (permanentResourceCache.registry_props ls)))]> ls
    end.
Proof.
  revert ls. induction rs as [|r rs IH]; intros ls Hok; [done|].
  cbn [foldl]. rewrite IH by (by apply registry_ok_add).
  rewrite add_ok by done. cbn [snd]. destruct rs as [|r' rs]; [done|].
  by rewrite registry_props_insert, insert_insert_eq, !merged_cons.
Qed.

(** X14: [addMultiple] of a list that is not empty leaves [localStorage] as
    the [add]s of its resources, one after the other, would. *)
Theorem addMultiple_is_adds_in_turn
    (rs : list permanentResourceCache.resource) (ls : Storage) :
  permanentResourceCache.registry_ok ls = true ->
  rs ≠ [] ->
  (permanentResourceCache.addMultiple rs ls).2
  = foldl (fun s r =>
             (permanentResourceCache.add (permanentResourceCache.ticker r)
                (permanentResourceCache.address r)
                (permanentResourceCache.iconUrl r) s).2)
      ls rs.
Proof.
  intros Hok Hrs. rewrite adds_in_turn, addMultiple_ok by done.
  by destruct rs.
Qed.

Lemma addMultiple_is_adds_in_turn_witness :
  let r1 := {| permanentResourceCache.ticker := "XRD";
               permanentResourceCache.address := "resource_xrd";
               permanentResourceCache.iconUrl := VStr "x" |} in
  let r2 := {| permanentResourceCache.ticker := "HUG";
               permanentResourceCache.address := "resource_hug";
               permanentResourceCache.iconUrl := VNull |} in
  (permanentResourceCache.addMultiple [r1; r2] ∅).2
  = (permanentResourceCache.add "HUG" "resource_hug" VNull
       (permanentResourceCache.add "XRD" "resource_xrd" (VStr "x") ∅).2).2.
Proof.
  intros r1 r2.
  apply (addMultiple_is_adds_in_turn [r1; r2] ∅); [reflexivity | discriminate].
Defined.

(** X15: where the registry key holds the JSON text [null], [add] and
    [addMultiple] return normally and change nothing, and [get] throws a
    TypeError. *)
Theorem registry_null_text_is_stuck (ls0 : Storage) (t a : string)
    (icon : jsval) (rs : list permanentResourceCache.resource) :
  let ls := <[permanentResourceCache.REGISTRY_KEY := Json VNull]> ls0 in
  permanentResourceCache.add t a icon ls = (Ret tt, ls)
  ∧ permanentResourceCache.addMultiple rs ls = (Ret tt, ls)
  ∧ permanentResourceCache.get t ls = (Throw TypeError, ls).
Proof.
  intros ls.
  assert (permanentResourceCache.getAll ls = (Ret VNull, ls)) as Hall.
  { unfold permanentResourceCache.getAll, ls. js_unfold.
    by rewrite lookup_insert_eq. }
  unfold permanentResourceCache.add, permanentResourceCache.addMultiple,
    permanentResourceCache.get.
  js_unfold. rewrite !Hall. split; [done|]. split; [|done].
  destruct rs as [|r rs]; [|done].
  cbn. unfold ls. by rewrite insert_insert_eq.
Qed.

(** X16: [clear] forgets every resource: after it [get] returns for every
    ticker what it returns on an empty registry ([null], or under a name of
    [Object.prototype] the built-in of that name); after one more [add]
    under a ticker other than [__proto__] the registry holds that resource
    and no other, and an [add] under [__proto__] stores nothing. *)
Theorem registry_clear_forgets (ls : Storage) (t t' a : string) (icon : jsval) :
  let ls' := (permanentResourceCache.clear ls).2 in
  let absent :=
    if bool_decide (t' ∈ Object_prototype_names)
    then Builtin t' else Value VNull in
  permanentResourceCache.get t' ls' = (Ret absent, ls')
  ∧ (permanentResourceCache.get t'
       (permanentResourceCache.add t a icon ls').2).1
    = (if String.eqb t' t && negb (String.eqb t "__proto__")
       then Ret (Value (permanentResourceCache.stored_entry a icon))
       else Ret absent).
Proof.
  intros ls' absent.
  assert (ls' !! permanentResourceCache.REGISTRY_KEY = None) as Hnone.
  { unfold ls', permanentResourceCache.clear. js_unfold. cbn [snd].
    apply lookup_delete_eq. }
  assert (permanentResourceCache.registry_ok ls' = true) as Hok
    by (unfold permanentResourceCache.registry_ok; by rewrite Hnone).
  assert (permanentResourceCache.registry_props ls' = []) as Hprops
    by (unfold permanentResourceCache.registry_props; by rewrite Hnone).
  assert (permanentResourceCache.get t' ls' = (Ret absent, ls')) as Hget.
  { rewrite get_ok, Hprops by done. unfold obj_read. cbn [obj_has].
    by rewrite member_or_inherited. }
  split; [done|].
  destruct (String.eqb t' t) eqn:Htt; cbn [andb].
  - apply String.eqb_eq in Htt as ->.
    destruct (String.eqb t "__proto__") eqn:Hproto; cbn [negb].
    + apply String.eqb_eq in Hproto as ->.
      rewrite add_ok by done. cbn [snd]. rewrite Hprops.
      rewrite obj_read_put_proto by done.
      rewrite get_ok by (by apply registry_ok_insert).
      rewrite registry_props_insert. cbn [fst]. unfold obj_read.
      cbn [obj_has]. by rewrite member_or_inherited.
    + apply String.eqb_neq in Hproto. by rewrite get_add_eq.
  - apply String.eqb_neq in Htt.
    rewrite get_add_ne by done. by rewrite Hget.
Qed.

(** ** The state of the registry key *)

Lemma registry_ok_delete (k : string) (ls : Storage) :
  permanentResourceCache.registry_ok ls = true ->
  permanentResourceCache.registry_ok (delete k ls) = true.
Proof.
  unfold permanentResourceCache.registry_ok.
  destruct (decide (k = permanentResourceCache.REGISTRY_KEY)) as [->|Hne].
  - by rewrite lookup_delete_eq.
  - by rewrite lookup_delete_ne.
Qed.

Lemma registry_ok_cache_set (now : Z) (key : string) (v : jsval)
    (ttlMs : number) (ls : Storage) :
  permanentResourceCache.registry_ok ls = true ->
  permanentResourceCache.registry_ok (cache.set now key v ttlMs ls).2 = true.
Proof.
  intros Hok. rewrite cache_set_state. cbn [snd].
  unfold permanentResourceCache.registry_ok.
  destruct (decide (CACHE_PREFIX +:+ key = permanentResourceCache.REGISTRY_KEY))
    as [->|Hne].
  - rewrite lookup_insert_eq. unfold JSON_stringify.
    rewrite JSON_roundtrip_VObj.
    eapply serializable_JSON_roundtrip, JSON_roundtrip_VObj.
  - by rewrite lookup_insert_ne.
Qed.

(** X17: the operations of the three stores keep the registry key in a
    state [getAll] reads as an object: no string, a string that is not JSON,
    or the text of an object.  From such a state [add], [addMultiple],
    [clear], [cache.set], [cache.remove], [cache.get] and [cache.clearAll]
    all lead to such a state. *)
Theorem registry_key_state_is_kept tn (now : Z) (key t a : string)
    (v icon : jsval) (ttlMs : number)
    (rs : list permanentResourceCache.resource) (ls : Storage) :
  permanentResourceCache.registry_ok ls = true ->
  permanentResourceCache.registry_ok
    (permanentResourceCache.add t a icon ls).2 = true
  ∧ permanentResourceCache.registry_ok
      (permanentResourceCache.addMultiple rs ls).2 = true
  ∧ permanentResourceCache.registry_ok
      (permanentResourceCache.clear ls).2 = true
  ∧ permanentResourceCache.registry_ok (cache.set now key v ttlMs ls).2 = true
  ∧ permanentResourceCache.registry_ok (cache.remove key ls).2 = true
  ∧ permanentResourceCache.registry_ok (cache.get tn now key ls).2 = true
  ∧ permanentResourceCache.registry_ok (cache.clearAll ls).2 = true.
Proof.
  intros Hok.
  split; [by apply registry_ok_add|].
  split; [by apply registry_ok_addMultiple|].
  split; [apply registry_ok_clear|].
  split; [by apply registry_ok_cache_set|].
  split; [by apply registry_ok_delete|].
  split.
  - rewrite cache_get_cases.
    destruct (ls !! (CACHE_PREFIX +:+ key)) as [[doc|s]|]; simpl; try done.
    destruct (GetValue doc "value") as [x|]; [|done].
    destruct (GetValue doc "expiry") as [e|]; [|done].
    destruct (strict_neq_Infinity e); [|done].
    destruct (cache.js_gt tn (Fin now) e) as [[]|]; try done.
    by apply registry_ok_delete.
  - unfold permanentResourceCache.registry_ok,
      permanentResourceCache.REGISTRY_KEY.
    by rewrite clearAll_lookup, prefix_CACHE_PREFIX.
Qed.

Lemma registry_key_state_is_kept_witness :
  let ls : Storage :=
    {[ "hypercave_resource_cache" :=
         Json (VObj [("HUG", VObj [("address", VStr "resource_hug");
                                   ("iconUrl", VNull)])]) ]} in
  permanentResourceCache.registry_ok
    (permanentResourceCache.add "XRD" "resource_xrd" VNull ls).2 = true
  ∧ permanentResourceCache.registry_ok
      (cache.set 1000 "resource_cache" (VStr "v") (Fin 60000) ls).2 = true.
Proof.
  intros ls.
  pose proof (registry_key_state_is_kept (fun _ => Ret NaN) 1000
                "resource_cache" "XRD" "resource_xrd" (VStr "v") VNull
                (Fin 60000) [] ls eq_refl) as (Hadd & _ & _ & Hset & _).
  split; [exact Hadd | exact Hset].
Defined.

Lemma own_put_twice (k : string) (v : jsval) (props : list (string * jsval)) :
  own_put k v (own_put k v props) = own_put k v props.
Proof.
  unfold own_put.
  destruct (String.eqb k "__proto__" && negb (obj_has k props)) eqn:Hp;
    [by rewrite Hp|].
  rewrite obj_has_set, String.eqb_refl, andb_false_r.
  unfold obj_set at 1. rewrite obj_has_set, String.eqb_refl. cbn [orb].
  unfold obj_set. destruct (obj_has k props) eqn:Hhas.
  - clear. induction props as [|[k' v'] props IH]; simpl; [done|].
    destruct (String.eqb k k') eqn:Hk; simpl.
    + by rewrite String.eqb_refl.
    + by rewrite Hk, IH.
  - clear Hp. induction props as [|[k' v'] props IH]; simpl in *.
    + by rewrite String.eqb_refl.
    + destruct (String.eqb k k') eqn:Hk; [done|].
      destruct (goes_before k k'); simpl.
      * by rewrite String.eqb_refl.
      * rewrite Hk. f_equal. by apply IH.
Qed.

(** X18: [add] is idempotent: the same resource added a second time leaves
    [localStorage] as the first [add] left it. *)
Theorem registry_add_twice (ls : Storage) (t a : string) (icon : jsval) :
  permanentResourceCache.registry_ok ls = true ->
  (permanentResourceCache.add t a icon
     (permanentResourceCache.add t a icon ls).2).2
  = (permanentResourceCache.add t a icon ls).2.
Proof.
  intros Hok. rewrite (add_ok t a icon _ (registry_ok_add t a icon ls Hok)).
  rewrite add_ok by done. cbn [snd].
  by rewrite registry_props_insert, insert_insert_eq, own_put_twice.
Qed.

Lemma registry_add_twice_witness :
  (permanentResourceCache.add "XRD" "resource_xrd" (VStr "x")
     (permanentResourceCache.add "XRD" "resource_xrd" (VStr "x") ∅).2).2
  = (permanentResourceCache.add "XRD" "resource_xrd" (VStr "x") ∅).2.
Proof.
  apply (registry_add_twice ∅ "XRD" "resource_xrd" (VStr "x")). reflexivity.
Defined.

(** ** Tickers that are names of [Object.prototype], or array indices *)

(** X26: a ticker that is the name of a member of [Object.prototype] and
    that the registry does not hold is not read as [null]: [get] returns the
    inherited built-in.  [add] under [__proto__] stores no entry (the
    registry is written back as it was read); under each of the other
    eleven names it stores the entry, which [get] then returns. *)
Theorem registry_reads_inherited_members (ls : Storage) (t a : string)
    (icon : jsval) :
  permanentResourceCache.registry_ok ls = true ->
  t ∈ ["constructor"; "hasOwnProperty"; "isPrototypeOf";
       "propertyIsEnumerable"; "toLocaleString"; "toString"; "valueOf";
       "__proto__"; "__defineGetter__"; "__defineSetter__";
       "__lookupGetter__"; "__lookupSetter__"] ->
  obj_has t (permanentResourceCache.registry_props ls) = false ->
  permanentResourceCache.get t ls = (Ret (Builtin t), ls)
  ∧ (t = "__proto__" ->
     permanentResourceCache.add t a icon ls
     = (Ret tt,
        <[permanentResourceCache.REGISTRY_KEY :=
            Json (VObj (permanentResourceCache.registry_props ls))]> ls))
  ∧ (t ≠ "__proto__" ->
     (permanentResourceCache.get t
        (permanentResourceCache.add t a icon ls).2).1
     = Ret (Value (permanentResourceCache.stored_entry a icon))).
Proof.
  intros Hok Ht Hhas. split; [|split].
  - rewrite get_ok by done. unfold obj_read. rewrite Hhas.
    unfold inherited, Object_prototype_names. by rewrite bool_decide_true.
  - intros ->. rewrite add_ok by done. by rewrite obj_read_put_proto.
  - intros Hne. by apply get_add_eq.
Qed.

Lemma registry_reads_inherited_members_witness :
  permanentResourceCache.get "constructor" ∅
  = (Ret (Builtin "constructor"), ∅)
  ∧ permanentResourceCache.add "__proto__" "resource_x" VNull ∅
    = (Ret tt, {[ "hypercave_resource_cache" := Json (VObj []) ]})
  ∧ (permanentResourceCache.get "toString"
       (permanentResourceCache.add "toString" "resource_x" VNull ∅).2).1
    = Ret (Value (VObj [("address", VStr "resource_x"); ("iconUrl", VNull)])).
Proof.
  assert (∀ t : string,
            bool_decide (t ∈ Object_prototype_names) = true ->
            t ∈ Object_prototype_names) as Hin
    by (intros t; apply bool_decide_eq_true_1).
  pose proof (registry_reads_inherited_members ∅ "constructor" "" VNull
                eq_refl (Hin "constructor" eq_refl) eq_refl) as (Hget & _ & _).
  pose proof (registry_reads_inherited_members ∅ "__proto__" "resource_x"
                VNull eq_refl (Hin "__proto__" eq_refl) eq_refl) as (_ & Hproto & _).
  pose proof (registry_reads_inherited_members ∅ "toString" "resource_x"
                VNull eq_refl (Hin "toString" eq_refl) eq_refl) as (_ & _ & Hname).
  split; [exact Hget|]. split; [exact (Hproto eq_refl)|].
  apply Hname. discriminate.
Defined.





(** Index tickers among themselves: ascending, whatever the order of the
    [add]s. *)
Example index_tickers_ascending :
  (permanentResourceCache.registry_props
     (permanentResourceCache.add "9" "r9" VNull
        (permanentResourceCache.add "b" "rb" VNull
           (permanentResourceCache.add "10" "r10" VNull ∅).2).2).2).*1
  = ["9"; "10"; "b"].
Proof. by vm_compute. Qed.

(** * Further properties of the builders and of the controller *)

(** X19: the strings given to a builder are embedded as they are, quotes
    included: one address that contains [a"), Address("b] gives the query
    manifest of the two addresses [a] and [b]. *)
Theorem buildLookCaveManifest_embeds_quotes (CONFIG : Config)
    (accountAddress nftCollection nftId a b : string)
    (rest : list string) :
  buildLookCaveManifest CONFIG accountAddress nftCollection nftId
    ((a +:+ dq +:+ "), Address(" +:+ dq +:+ b) :: rest)
  = buildLookCaveManifest CONFIG accountAddress nftCollection nftId
      (a :: b :: rest).
Proof.
  assert (join ", "
            (map (fun addr => "Address(" +:+ quoted addr +:+ ")")
               ((a +:+ dq +:+ "), Address(" +:+ dq +:+ b) :: rest))
          = join ", "
              (map (fun addr => "Address(" +:+ quoted addr +:+ ")")
                 (a :: b :: rest))) as Hjoin.
  { destruct rest as [|c rest]; cbn [map]; string_norm; reflexivity. }
  unfold buildLookCaveManifest. cbv zeta. by rewrite Hjoin.
Qed.

Lemma map_Resource_id (rs : list Resource) :
  map (fun r => {| resourceAddress := resourceAddress r; amount := amount r |})
    rs = rs.
Proof. induction rs as [|[] rs IH]; [done|]. simpl. by rewrite IH. Qed.

(** X20: [handleTransaction] and [handleLookup] build nothing without a
    connected account or without an NFT.  With both and at least one
    resource, [handleTransaction] builds the deposit manifest in mode [in],
    the withdrawal manifest in mode [out], and throws in every other mode;
    [handleLookup] builds the query manifest of the addresses of the
    resources, in their order.  The manifests are built for the address of
    the connected account and the collection and id of the NFT. *)
Theorem handlers_build_for_account_and_nft (CONFIG : Config)
    (account : Account) (n : Nft) (m : string) (r : Resource)
    (rs : list Resource) (o : option Nft) (oa : option Account) :
  let data := {| mode := m; nft := Some n; resources := r :: rs |} in
  handleTransaction CONFIG None {| mode := m; nft := o; resources := r :: rs |}
  = NotBuilt
  ∧ handleLookup CONFIG None {| mode := m; nft := o; resources := r :: rs |}
    = NotBuilt
  ∧ handleTransaction CONFIG oa
      {| mode := m; nft := None; resources := r :: rs |} = NotBuilt
  ∧ handleLookup CONFIG oa
      {| mode := m; nft := None; resources := r :: rs |} = NotBuilt
  ∧ handleTransaction CONFIG (Some account) data
    = (if String.eqb m "in" then
         Built (render_manifest
                  (deposit_manifest (componentAddress CONFIG)
                     (account_address account) (collection n) (id n)
                     (r :: rs)))
       else if String.eqb m "out" then
         Built (render_manifest
                  (withdraw_manifest (componentAddress CONFIG)
                     (account_address account) (collection n) (id n)
                     (r :: rs)))
       else InvalidMode)
  ∧ handleLookup CONFIG (Some account) data
    = Built (render_manifest
               (query_manifest (componentAddress CONFIG)
                  (account_address account) (collection n) (id n)
                  (map resourceAddress (r :: rs)))).
Proof.
  intros data. split; [done|]. split; [done|].
  split; [by destruct oa|]. split; [by destruct oa|].
  unfold handleTransaction, handleLookup, data.
  cbn [nft resources mode]. rewrite map_Resource_id.
  rewrite buildInCaveManifest_render, buildOutCaveManifest_render,
    buildLookCaveManifest_render.
  done.
Qed.

(** ** After a transaction *)

Lemma resourcesToCache_app (rs1 rs2 : list main.resource) :
  main.resourcesToCache (rs1 ++ rs2)
  = main.resourcesToCache rs1 ++ main.resourcesToCache rs2.
Proof. unfold main.resourcesToCache. apply map_app. Qed.

Lemma resourcesToCache_other (t : string) (rs : list main.resource) :
  Forall (fun r => main.symbol r ≠ t) rs ->
  Forall (fun r => permanentResourceCache.ticker r ≠ t)
    (main.resourcesToCache rs).
Proof.
  intros H. unfold main.resourcesToCache. apply Forall_forall.
  intros x Hx. apply list_elem_of_In, in_map_iff in Hx as (r & <- & Hr).
  simpl. rewrite Forall_forall in H. by apply H, list_elem_of_In.
Qed.

(** X21: after an accepted deposit, the registry holds every deposited
    resource whose symbol is not [__proto__] and that no later resource of
    the list shares its symbol with, under its symbol, with its address and
    its icon ([null] for a falsy icon); a ticker that is the symbol of no
    deposited resource is read as before. *)
Theorem deposit_success_registers_resources
    (before after : list main.resource) (r : main.resource) (t : string)
    (st : main.state) :
  permanentResourceCache.registry_ok (main.localStorage st) = true ->
  main.symbol r ≠ "__proto__" ->
  serializable (main.iconUrl r) = true ->
  Forall (fun r' => main.symbol r' ≠ main.symbol r) after ->
  Forall (fun r' => main.symbol r' ≠ t) (before ++ r :: after) ->
  let st' := main.handleTransaction_success "in" (before ++ r :: after) st in
  (permanentResourceCache.get (main.symbol r) (main.localStorage st')).1
  = Ret (Value (VObj [("address", VStr (main.resourceAddress r));
                      ("iconUrl", js_or (main.iconUrl r) VNull)]))
  ∧ (permanentResourceCache.get t (main.localStorage st')).1
    = (permanentResourceCache.get t (main.localStorage st)).1.
Proof.
  intros Hok Hproto Hs Hlast Hother st'.
  assert (main.localStorage st'
          = (permanentResourceCache.addMultiple
               (main.resourcesToCache (before ++ r :: after))
               (main.localStorage st)).2) as ->.
  { unfold st', main.handleTransaction_success.
    cbn [String.eqb Ascii.eqb Bool.eqb]. by destruct (main.currentAccount st). }
  split.
  - rewrite resourcesToCache_app. cbn [main.resourcesToCache map].
    rewrite get_addMultiple_last
      by (done || by apply resourcesToCache_other).
    by rewrite stored_entry_serializable.
  - by rewrite get_addMultiple_ne by (done || by apply resourcesToCache_other).
Qed.

Lemma deposit_success_registers_resources_witness :
  let xrd := {| main.resourceAddress := "resource_xrd"; main.amount := "10";
                main.symbol := "XRD"; main.iconUrl := VStr "" |} in
  let hug := {| main.resourceAddress := "resource_hug"; main.amount := "5";
                main.symbol := "HUG"; main.iconUrl := VStr "h" |} in
  let st := {| main.localStorage :=
                 {[ "hypercave_resource_cache" :=
                      Json (VObj [("EARLY", VObj [("address", VStr "resource_e");
                                                  ("iconUrl", VNull)])]) ]};
               main.session := ∅;
               main.currentAccount := Some {| account_address := "account" |} |} in
  let st' := main.handleTransaction_success "in" [hug; xrd] st in
  (permanentResourceCache.get "XRD" (main.localStorage st')).1
  = Ret (Value (VObj [("address", VStr "resource_xrd");
                      ("iconUrl", VNull)]))
  ∧ (permanentResourceCache.get "EARLY" (main.localStorage st')).1
    = (permanentResourceCache.get "EARLY" (main.localStorage st)).1.
Proof.
  intros xrd hug st st'.
  apply (deposit_success_registers_resources [hug] [] xrd "EARLY" st).
  - reflexivity.
  - discriminate.
  - reflexivity.
  - constructor.
  - repeat constructor; discriminate.
Defined.

Lemma invalidate_state (address : string) (data : sessionCache.Data) :
  (main.invalidate address data).2
  = delete ("nfts:" +:+ address) (delete ("fungibles:" +:+ address) data).
Proof. done. Qed.

Lemma sessionCache_get_delete_ne (now : Z) (key k : string)
    (data : sessionCache.Data) :
  key ≠ k ->
  (sessionCache.get now key (delete k data)).1
  = (sessionCache.get now key data).1.
Proof.
  intros Hne. unfold sessionCache.get. rewrite lookup_delete_ne by done.
  destruct (data !! key) as [item|]; [|done]. by destruct (negb _ && _).
Qed.

(** X22: an accepted deposit or withdrawal drops from the session store the
    two entries [fungibles:<address>] and [nfts:<address>] of the current
    account and no other: [get] returns [null] for these two keys and, for
    every other key, what it returned before.  A withdrawal leaves
    [localStorage] as it is.  When there is no current account any more, the
    session store is left as it is. *)
Theorem success_invalidates_account_entries (account : Account)
    (m key : string) (now : Z) (resources : list main.resource)
    (st : main.state) :
  m = "in" ∨ m = "out" ->
  main.currentAccount st = Some account ->
  key ≠ "fungibles:" +:+ account_address account ->
  key ≠ "nfts:" +:+ account_address account ->
  let st' := main.handleTransaction_success m resources st in
  (sessionCache.get now ("fungibles:" +:+ account_address account)
     (main.session st')).1 = Ret VNull
  ∧ (sessionCache.get now ("nfts:" +:+ account_address account)
       (main.session st')).1 = Ret VNull
  ∧ (sessionCache.get now key (main.session st')).1
    = (sessionCache.get now key (main.session st)).1
  ∧ main.localStorage (main.handleTransaction_success "out" resources st)
    = main.localStorage st
  ∧ main.session
      (main.handleTransaction_success m resources
         {| main.localStorage := main.localStorage st;
            main.session := main.session st;
            main.currentAccount := None |})
    = main.session st.
Proof.
  intros Hm Hacc Hf Hn st'.
  assert (main.session st'
          = delete ("nfts:" +:+ account_address account)
              (delete ("fungibles:" +:+ account_address account)
                 (main.session st))) as ->.
  { unfold st', main.handleTransaction_success.
    by destruct Hm as [-> | ->]; rewrite Hacc. }
  split; [|split; [|split; [|split]]].
  - unfold sessionCache.get.
    rewrite lookup_delete_ne, lookup_delete_eq; [done|].
    intros H. cbn in H. discriminate H.
  - unfold sessionCache.get. by rewrite lookup_delete_eq.
  - by rewrite !sessionCache_get_delete_ne.
  - unfold main.handleTransaction_success. by rewrite Hacc.
  - by destruct Hm as [-> | ->].
Qed.

Lemma success_invalidates_account_entries_witness :
  let account := {| account_address := "a" |} in
  let st :=
    {| main.localStorage := ∅;
       main.session :=
         (sessionCache.set 1000 "other" (VStr "o") (Fin 60000)
            (sessionCache.set 1000 "fungibles:a" (VStr "f") (Fin 60000) ∅).2).2;
       main.currentAccount := Some account |} in
  let st' := main.handleTransaction_success "out" [] st in
  (sessionCache.get 2000 "fungibles:a" (main.session st')).1 = Ret VNull
  ∧ (sessionCache.get 2000 "nfts:a" (main.session st')).1 = Ret VNull
  ∧ (sessionCache.get 2000 "other" (main.session st')).1
    = (sessionCache.get 2000 "other" (main.session st)).1
  ∧ main.localStorage (main.handleTransaction_success "out" [] st)
    = main.localStorage st
  ∧ main.session
      (main.handleTransaction_success "out" []
         {| main.localStorage := main.localStorage st;
            main.session := main.session st;
            main.currentAccount := None |})
    = main.session st.
Proof.
  intros account st st'.
  apply (success_invalidates_account_entries account "out" "other" 2000 [] st);
    [right; reflexivity | reflexivity | discriminate | discriminate].
Defined.

(** ** The wallet and the development server *)

(** X23: every update from the wallet empties the session store and leaves
    [localStorage] alone; the first account of the update becomes the
    current one.  After an update without accounts there is no current
    account, and [handleTransaction] and [handleLookup] build nothing. *)
Theorem wallet_update_resets_session (CONFIG : Config)
    (accounts : list Account) (st : main.state) (now : Z) (key : string)
    (data : TransactionData) :
  let st' := main.onWalletData accounts st in
  sessionCache.get now key (main.session st') = (Ret VNull, ∅)
  ∧ main.localStorage st' = main.localStorage st
  ∧ main.currentAccount st' = head accounts
  ∧ handleTransaction CONFIG
      (main.currentAccount (main.onWalletData [] st)) data = NotBuilt
  ∧ handleLookup CONFIG
      (main.currentAccount (main.onWalletData [] st)) data = NotBuilt.
Proof. intros st'. unfold st'. by destruct accounts. Qed.

(** X24: the middleware sends [/docs] and [/docs/] to [/docs/index.html] and
    passes every other URL on as it is; it never passes on [/docs] or
    [/docs/], and a second pass changes nothing. *)
Theorem docs_middleware_rewrites_docs_root (url : string) :
  docs_middleware "/docs" = "/docs/index.html"
  ∧ docs_middleware "/docs/" = "/docs/index.html"
  ∧ (docs_middleware url = url ∨ url = "/docs" ∨ url = "/docs/")
  ∧ docs_middleware url ≠ "/docs"
  ∧ docs_middleware url ≠ "/docs/"
  ∧ docs_middleware (docs_middleware url) = docs_middleware url.
Proof.
  unfold docs_middleware.
  destruct (String.eqb url "/docs") eqn:H1;
    destruct (String.eqb url "/docs/") eqn:H2;
    cbn [orb]; rewrite ?H1, ?H2; cbn;
    apply String.eqb_eq in H1 || apply String.eqb_neq in H1;
    apply String.eqb_eq in H2 || apply String.eqb_neq in H2;
    repeat split; auto; discriminate.
Qed.

(** * Reading twice *)

Lemma cache_get_state tn (now : Z) (key : string) (ls : Storage) :
  (cache.get tn now key ls).2 = ls
  ∨ cache.get tn now key ls = (Ret VNull, delete (CACHE_PREFIX +:+ key) ls).
Proof.
  rewrite cache_get_cases.
  destruct (ls !! (CACHE_PREFIX +:+ key)) as [[doc|s]|]; simpl; auto.
  destruct (GetValue doc "value") as [v|]; [|by auto].
  destruct (GetValue doc "expiry") as [e|]; [|by auto].
  destruct (strict_neq_Infinity e); [|by auto].
  destruct (cache.js_gt tn (Fin now) e) as [[]|]; auto.
Qed.

(** X25: at a given time a second [get] returns what the first returned and
    leaves the store as the first left it, in both stores. *)
Theorem get_twice_is_get_once tn (now : Z) (key : string) (ls : Storage)
    (data : sessionCache.Data) :
  cache.get tn now key (cache.get tn now key ls).2 = cache.get tn now key ls
  ∧ sessionCache.get now key (sessionCache.get now key data).2
    = sessionCache.get now key data.
Proof.
  split.
  - destruct (cache_get_state tn now key ls) as [H|H]; rewrite H; [done|].
    cbn [snd]. rewrite cache_get_cases.
    by rewrite lookup_delete_eq.
  - unfold sessionCache.get.
    destruct (data !! key) as [item|] eqn:Hk; cbn [snd]; [|by rewrite Hk].
    destruct (negb _ && _) eqn:Hexp; cbn [snd].
    + by rewrite lookup_delete_eq.
    + by rewrite Hk, Hexp.
Qed.
